(** * Selective-Repeat sender and receiver of [sr.c]

    A shallow embedding of [src/sr.c] (the SR protocol entities written for
    the Kurose network emulator) and the properties its specification
    states about it.

    Conventions of the embedding:
    - a C [int] is a [Z] in the 32-bit two's complement range; every
      arithmetic result goes through [wrap];
    - a C [char] is the [Z] that the cast [(int)c] yields;
    - the file-scope arrays are lists, read and written through checked
      accessors: an index outside the array is an [OutOfBounds] outcome;
    - the calls into the emulator ([tolayer3], [tolayer5], [starttimer],
      [stoptimer]) are recorded, in order, in a log of [event]s;
    - [printf] tracing under [TRACE] is left out: it reads state only. *)

From Stdlib Require Import ZArith List Bool Lia QArith.
From stdpp Require Import base tactics option list.
Import ListNotations.

Local Open Scope Z_scope.

(** ** Machine integers *)

Module Int.

Definition half : Z := 2 ^ 31.
Definition modulus : Z := 2 ^ 32.

Definition in_range (z : Z) : Prop := - half <= z < half.

(** Two's complement wrap-around of an [int] result. *)
Definition wrap (z : Z) : Z := (z + half) mod modulus - half.

Definition add (a b : Z) : Z := wrap (a + b).
Definition sub (a b : Z) : Z := wrap (a - b).

(** The unsigned reading of the 32 bits of an [int]. *)
Definition unsigned (z : Z) : Z := z mod modulus.

(** Byte [k] (0 the least significant) of the representation. *)
Definition get_byte (k : nat) (z : Z) : Z :=
  (unsigned z / 256 ^ Z.of_nat k) mod 256.

(** The [int] whose representation is that of [z] with byte [k]
    replaced by [b]. *)
Definition set_byte (k : nat) (b : Z) (z : Z) : Z :=
  wrap (unsigned z + (b - get_byte k z) * 256 ^ Z.of_nat k).

End Int.

(** ** Constants of [sr.c] *)

Definition RTT : Q := 16 # 1.
Definition WINDOWSIZE : Z := 6.
Definition SEQSPACE : Z := 12.
Definition NOTINUSE : Z := -1.

(** Length of [msg.data] and [pkt.payload]. *)
Definition PAYLOAD : nat := 20.

(** ** Packets and messages *)

(** Modelled from the spec: [struct msg] of [emulator.h], which is not
    among the sources; the spec gives a message as a payload of the same
    fixed length as a packet's. *)
Record msg := Msg { data : list Z }.

(** Modelled from the spec: [struct pkt] of [emulator.h], which is not
    among the sources; the spec gives its layout as sequence number,
    acknowledgment number, checksum and a payload of 20 units. *)
Record pkt := Pkt {
  seqnum : Z;
  acknum : Z;
  checksum : Z;
  payload : list Z
}.

Definition set_seqnum (v : Z) (p : pkt) : pkt :=
  Pkt v (acknum p) (checksum p) (payload p).
Definition set_acknum (v : Z) (p : pkt) : pkt :=
  Pkt (seqnum p) v (checksum p) (payload p).
Definition set_checksum (v : Z) (p : pkt) : pkt :=
  Pkt (seqnum p) (acknum p) v (payload p).
Definition set_payload (v : list Z) (p : pkt) : pkt :=
  Pkt (seqnum p) (acknum p) (checksum p) v.

(** [a[i]] for a [char a[20]]: the type fixes the length, so a list
    that stands for such an array has 20 entries and the default is
    never used on it. *)
Definition char_at (a : list Z) (i : nat) : Z := nth i a 0.

(** The array obtained by assigning [f i] to entry [i], for
    [i = 0 .. 19]. *)
Definition fill (f : nat -> Z) : list Z := map f (seq 0 PAYLOAD).

(** A [char] on the platforms the emulator is built for is signed. *)
Definition char_range (c : Z) : Prop := -128 <= c <= 127.

(** What the C types guarantee of a packet value. *)
Record pkt_ok (p : pkt) : Prop := {
  ok_seqnum : Int.in_range (seqnum p);
  ok_acknum : Int.in_range (acknum p);
  ok_checksum : Int.in_range (checksum p);
  ok_length : length (payload p) = PAYLOAD;
  ok_chars : Forall char_range (payload p)
}.

(** ** Checksum *)

Definition ComputeChecksum (packet : pkt) : Z :=
  let checksum := seqnum packet in
  let checksum := Int.add checksum (acknum packet) in
  fold_left (fun checksum i => Int.add checksum (char_at (payload packet) i))
            (seq 0 PAYLOAD) checksum.

Definition IsCorrupted (packet : pkt) : bool :=
  if checksum packet =? ComputeChecksum packet then false else true.

(** ** Calls into the emulator *)

Inductive entity := A | B.

Inductive event :=
| tolayer3 (AorB : entity) (packet : pkt)
| tolayer5 (AorB : entity) (datasent : list Z)
| starttimer (AorB : entity) (increment : Q)
| stoptimer (AorB : entity).

(** ** Outcomes and the monad of an entity's routines *)

Inductive result (X : Type) :=
| Ok (x : X)
| OutOfBounds
| OutOfFuel.
Arguments Ok {X} x.
Arguments OutOfBounds {X}.
Arguments OutOfFuel {X}.

(** A routine over the state [St]: it may change the state, append to the
    log of emulator calls, and stop at an array access out of bounds. *)
Definition M (St X : Type) : Type :=
  St -> list event -> result (X * St * list event).

Section Monad.
Context {St : Type}.

Definition ret {X} (x : X) : M St X := fun s log => Ok (x, s, log).

Definition bind {X Y} (m : M St X) (k : X -> M St Y) : M St Y :=
  fun s log =>
    match m s log with
    | Ok (x, s', log') => k x s' log'
    | OutOfBounds => OutOfBounds
    | OutOfFuel => OutOfFuel
    end.

Definition get : M St St := fun s log => Ok (s, s, log).
Definition modify (f : St -> St) : M St unit := fun s log => Ok (tt, f s, log).
Definition emit (e : event) : M St unit := fun s log => Ok (tt, s, log ++ [e]).
Definition fault {X} : M St X := fun _ _ => OutOfBounds.

Definition lift {X} (o : option X) : M St X :=
  match o with Some x => ret x | None => fault end.

(** The outcome of a routine started with an empty log. *)
Definition run {X} (m : M St X) (s : St) : result (X * St * list event) :=
  m s [].
End Monad.

Declare Scope sr_scope.
Delimit Scope sr_scope with sr.
Notation "x <- m ;; k" := (bind m (fun x => k))
  (at level 100, m at next level, right associativity) : sr_scope.
Notation "m ;; k" := (bind m (fun _ => k))
  (at level 100, right associativity) : sr_scope.
Local Open Scope sr_scope.

(** [while (cond) body] with a bound on the number of tests. *)
Fixpoint while {St} (fuel : nat) (cond : M St bool) (body : M St unit) : M St unit :=
  match fuel with
  | O => fun _ _ => OutOfFuel
  | S fuel' =>
      c <- cond ;;
      if c : bool then (body ;; while fuel' cond body) else ret tt
  end.

(** [for (i = 0; i < n; i++) body(i)]. *)
Definition for_upto {St} (n : nat) (body : Z -> M St unit) : M St unit :=
  fold_right (fun i k => body (Z.of_nat i) ;; k) (ret tt) (seq 0 n).

(** ** Checked array accesses *)

Definition aref {X} (a : list X) (i : Z) : option X :=
  if 0 <=? i then a !! Z.to_nat i else None.

Definition aset {X} (a : list X) (i : Z) (x : X) : option (list X) :=
  if (0 <=? i) && (i <? Z.of_nat (length a))
  then Some (<[Z.to_nat i := x]> a) else None.

(** ** Sender (A) *)

(** The file-scope variables of the sender, with the emulator's counters
    that its routines increment. *)
Record sender := Sender {
  buffer : list pkt;
  windowfirst : Z;
  windowlast : Z;
  windowcount : Z;
  A_nextseqnum : Z;
  acked : list bool;
  window_full : Z;
  new_ACKs : Z;
  packets_resent : Z
}.

Definition set_buffer (v : list pkt) (s : sender) : sender :=
  Sender v (windowfirst s) (windowlast s) (windowcount s) (A_nextseqnum s)
         (acked s) (window_full s) (new_ACKs s) (packets_resent s).
Definition set_windowfirst (v : Z) (s : sender) : sender :=
  Sender (buffer s) v (windowlast s) (windowcount s) (A_nextseqnum s)
         (acked s) (window_full s) (new_ACKs s) (packets_resent s).
Definition set_windowlast (v : Z) (s : sender) : sender :=
  Sender (buffer s) (windowfirst s) v (windowcount s) (A_nextseqnum s)
         (acked s) (window_full s) (new_ACKs s) (packets_resent s).
Definition set_windowcount (v : Z) (s : sender) : sender :=
  Sender (buffer s) (windowfirst s) (windowlast s) v (A_nextseqnum s)
         (acked s) (window_full s) (new_ACKs s) (packets_resent s).
Definition set_A_nextseqnum (v : Z) (s : sender) : sender :=
  Sender (buffer s) (windowfirst s) (windowlast s) (windowcount s) v
         (acked s) (window_full s) (new_ACKs s) (packets_resent s).
Definition set_acked (v : list bool) (s : sender) : sender :=
  Sender (buffer s) (windowfirst s) (windowlast s) (windowcount s)
         (A_nextseqnum s) v (window_full s) (new_ACKs s) (packets_resent s).
Definition set_window_full (v : Z) (s : sender) : sender :=
  Sender (buffer s) (windowfirst s) (windowlast s) (windowcount s)
         (A_nextseqnum s) (acked s) v (new_ACKs s) (packets_resent s).
Definition set_new_ACKs (v : Z) (s : sender) : sender :=
  Sender (buffer s) (windowfirst s) (windowlast s) (windowcount s)
         (A_nextseqnum s) (acked s) (window_full s) v (packets_resent s).
Definition set_packets_resent (v : Z) (s : sender) : sender :=
  Sender (buffer s) (windowfirst s) (windowlast s) (windowcount s)
         (A_nextseqnum s) (acked s) (window_full s) (new_ACKs s) v.

(** [buffer[i]], [acked[i]] and the assignments to them. *)
Definition buffer_at (i : Z) : M sender pkt :=
  s <- get ;; lift (aref (buffer s) i).
Definition buffer_put (i : Z) (p : pkt) : M sender unit :=
  s <- get ;; b <- lift (aset (buffer s) i p) ;; modify (set_buffer b).
Definition acked_at (i : Z) : M sender bool :=
  s <- get ;; lift (aref (acked s) i).
Definition acked_put (i : Z) (v : bool) : M sender unit :=
  s <- get ;; a <- lift (aset (acked s) i v) ;; modify (set_acked a).

Definition A_output (message : msg) : M sender unit :=
  s <- get ;;
  if windowcount s <? WINDOWSIZE then
    (* create packet; its checksum field is unset until the checksum,
       which does not read it, is stored *)
    let sendpkt :=
      Pkt (A_nextseqnum s) NOTINUSE 0 (fill (fun i => char_at (data message) i)) in
    let sendpkt := set_checksum (ComputeChecksum sendpkt) sendpkt in
    (* put packet in window buffer *)
    modify (set_windowlast (Z.rem (Int.add (windowlast s) 1) WINDOWSIZE)) ;;
    s <- get ;;
    buffer_put (windowlast s) sendpkt ;;
    modify (fun s => set_windowcount (Int.add (windowcount s) 1) s) ;;
    (* send out packet *)
    emit (tolayer3 A sendpkt) ;;
    (* start timer if first packet in window *)
    s <- get ;;
    (if windowcount s =? 1 then emit (starttimer A RTT) else ret tt) ;;
    (* get next sequence number, wrap back to 0 *)
    modify (fun s => set_A_nextseqnum (Z.rem (Int.add (A_nextseqnum s) 1) SEQSPACE) s)
  else
    (* window is full *)
    modify (fun s => set_window_full (Int.add (window_full s) 1) s).

(** The test of the window-sliding loop of [A_input], with the
    short-circuit of [&&]. *)
Definition slide_cond : M sender bool :=
  s <- get ;;
  if windowcount s >? 0 then
    head <- buffer_at (windowfirst s) ;;
    acked_at (seqnum head)
  else ret false.

Definition slide_body : M sender unit :=
  modify (fun s => set_windowfirst (Z.rem (Int.add (windowfirst s) 1) WINDOWSIZE) s) ;;
  modify (fun s => set_windowcount (Int.sub (windowcount s) 1) s).

(** Every turn of the loop lowers a positive [windowcount] by one, so
    one test more than [windowcount] is enough. *)
Definition slide_fuel (s : sender) : nat := S (Z.to_nat (windowcount s)).

Definition A_input (packet : pkt) : M sender unit :=
  if negb (IsCorrupted packet) then
    a <- acked_at (acknum packet) ;;
    if negb a then
      modify (fun s => set_new_ACKs (Int.add (new_ACKs s) 1) s) ;;
      acked_put (acknum packet) true ;;
      s <- get ;;
      head <- buffer_at (windowfirst s) ;;
      if acknum packet =? seqnum head then
        (* skip over every slot that has already been ACKed *)
        while (slide_fuel s) slide_cond slide_body ;;
        (* re-arm timer *)
        emit (stoptimer A) ;;
        s <- get ;;
        if windowcount s >? 0 then emit (starttimer A RTT) else ret tt
      else ret tt
    else ret tt
  else ret tt.

Definition A_timerinterrupt : M sender unit :=
  s <- get ;;
  head <- buffer_at (windowfirst s) ;;
  emit (tolayer3 A head) ;;
  modify (fun s => set_packets_resent (Int.add (packets_resent s) 1) s) ;;
  s <- get ;;
  if windowcount s >? 0 then emit (starttimer A RTT) else ret tt.

(** [sendtime], which the loop of [A_init] also zeroes, is not declared
    in [sr.c] and no routine reads it; it has no part in the state. *)
Definition A_init : M sender unit :=
  modify (set_A_nextseqnum 0) ;;
  modify (set_windowfirst 0) ;;
  modify (set_windowlast (-1)) ;;
  modify (set_windowcount 0) ;;
  for_upto (Z.to_nat SEQSPACE) (fun i => acked_put i false).

Definition zero_pkt : pkt := Pkt 0 0 0 (repeat 0 PAYLOAD).

(** The sender's variables when the program starts: objects of static
    storage are zero. *)
Definition sender_static : sender :=
  Sender (repeat zero_pkt (Z.to_nat WINDOWSIZE)) 0 0 0 0
         (repeat false (Z.to_nat SEQSPACE)) 0 0 0.

(** ** Receiver (B) *)

Record receiver := Receiver {
  expectedseqnum : Z;
  B_nextseqnum : Z;
  recvpkt : list pkt;
  received : list bool;
  packets_received : Z
}.

Definition set_expectedseqnum (v : Z) (r : receiver) : receiver :=
  Receiver v (B_nextseqnum r) (recvpkt r) (received r) (packets_received r).
Definition set_B_nextseqnum (v : Z) (r : receiver) : receiver :=
  Receiver (expectedseqnum r) v (recvpkt r) (received r) (packets_received r).
Definition set_recvpkt (v : list pkt) (r : receiver) : receiver :=
  Receiver (expectedseqnum r) (B_nextseqnum r) v (received r) (packets_received r).
Definition set_received (v : list bool) (r : receiver) : receiver :=
  Receiver (expectedseqnum r) (B_nextseqnum r) (recvpkt r) v (packets_received r).
Definition set_packets_received (v : Z) (r : receiver) : receiver :=
  Receiver (expectedseqnum r) (B_nextseqnum r) (recvpkt r) (received r) v.

Definition recvpkt_at (i : Z) : M receiver pkt :=
  r <- get ;; lift (aref (recvpkt r) i).
Definition recvpkt_put (i : Z) (p : pkt) : M receiver unit :=
  r <- get ;; b <- lift (aset (recvpkt r) i p) ;; modify (set_recvpkt b).
Definition received_at (i : Z) : M receiver bool :=
  r <- get ;; lift (aref (received r) i).
Definition received_put (i : Z) (v : bool) : M receiver unit :=
  r <- get ;; a <- lift (aset (received r) i v) ;; modify (set_received a).

(** The test and the body of the delivery loop of [B_input]. *)
Definition deliver_cond : M receiver bool :=
  r <- get ;; received_at (expectedseqnum r).

Definition deliver_body : M receiver unit :=
  r <- get ;;
  slot <- recvpkt_at (expectedseqnum r) ;;
  emit (tolayer5 B (payload slot)) ;;
  received_put (expectedseqnum r) false ;;
  modify (fun r => set_expectedseqnum (Z.rem (Int.add (expectedseqnum r) 1) SEQSPACE) r).

(** Every turn of the loop clears one flag that was set, so one test
    more than the number of flags is enough. *)
Definition deliver_fuel (r : receiver) : nat := S (length (received r)).

(** [sendpkt] is the local of that name as the routine finds it: the C
    code assigns its [acknum], [payload] and [checksum] and leaves its
    [seqnum] as it was. *)
Definition B_input (sendpkt : pkt) (packet : pkt) : M receiver unit :=
  if negb (IsCorrupted packet) then
    modify (fun r => set_packets_received (Int.add (packets_received r) 1) r) ;;
    (* store the packet if we have not seen it before *)
    seen <- received_at (seqnum packet) ;;
    (if negb seen then
       received_put (seqnum packet) true ;;
       slot <- recvpkt_at (seqnum packet) ;;
       recvpkt_put (seqnum packet)
         (set_payload (fill (fun i => char_at (payload packet) i)) slot)
     else ret tt) ;;
    (* deliver every contiguous in-order packet *)
    r <- get ;;
    while (deliver_fuel r) deliver_cond deliver_body ;;
    (* send an ACK for the received packet *)
    let sendpkt := set_acknum (seqnum packet) sendpkt in
    let sendpkt := set_acknum NOTINUSE sendpkt in
    (* fill payload with '0' *)
    let sendpkt := set_payload (fill (fun _ => 48)) sendpkt in
    let sendpkt := set_checksum (ComputeChecksum sendpkt) sendpkt in
    emit (tolayer3 B sendpkt)
  else ret tt.

Definition B_init : M receiver unit :=
  modify (set_expectedseqnum 0) ;;
  modify (set_B_nextseqnum 1).

(** The receiver's variables when the program starts. *)
Definition receiver_static : receiver :=
  Receiver 0 0 (repeat zero_pkt (Z.to_nat SEQSPACE))
           (repeat false (Z.to_nat SEQSPACE)) 0.

(** ** Runs of the sender *)

Inductive call :=
| call_A_output (message : msg)
| call_A_input (packet : pkt)
| call_A_timerinterrupt.

Definition perform (c : call) : M sender unit :=
  match c with
  | call_A_output message => A_output message
  | call_A_input packet => A_input packet
  | call_A_timerinterrupt => A_timerinterrupt
  end.

(** The states of the sender in a run of the program: [A_init] is called
    once, on the static state, and then the emulator calls the three
    routines in any order. *)
Inductive reachable : sender -> Prop :=
| reach_init s log :
    run A_init sender_static = Ok (tt, s, log) -> reachable s
| reach_call s c s' log :
    reachable s -> run (perform c) s = Ok (tt, s', log) -> reachable s'.

Definition sender_initial : sender :=
  Sender (repeat zero_pkt 6) 0 (-1) 0 0 (repeat false 12) 0 0 0.

Definition msg_a : msg := Msg (repeat 97 PAYLOAD).
Definition pkt_a0 : pkt := Pkt 0 (-1) 1939 (repeat 97 PAYLOAD).

(** ** Single-byte mutations *)

(** A change of one byte of a packet outside its checksum field: byte
    [k] of the sequence or of the acknowledgment number, or entry [i] of
    the payload, takes a new value. *)
Inductive mutation :=
| mut_seqnum (k : nat) (b : Z)
| mut_acknum (k : nat) (b : Z)
| mut_payload (i : nat) (c : Z).

Definition mutate (m : mutation) (p : pkt) : pkt :=
  match m with
  | mut_seqnum k b => set_seqnum (Int.set_byte k b (seqnum p)) p
  | mut_acknum k b => set_acknum (Int.set_byte k b (acknum p)) p
  | mut_payload i c => set_payload (<[i := c]> (payload p)) p
  end.

(** The mutation names a byte of the packet and gives it a value, of the
    byte's type, different from the one it has. *)
Definition changes_one_byte (m : mutation) (p : pkt) : Prop :=
  match m with
  | mut_seqnum k b => (k < 4)%nat /\ 0 <= b < 256 /\ b <> Int.get_byte k (seqnum p)
  | mut_acknum k b => (k < 4)%nat /\ 0 <= b < 256 /\ b <> Int.get_byte k (acknum p)
  | mut_payload i c =>
      (i < PAYLOAD)%nat /\ char_range c /\ c <> char_at (payload p) i
  end.

(** Sum of a list of integers, without wrap-around. *)
Definition sumZ (l : list Z) : Z := fold_right Z.add 0 l.

(** ** Shape of the sender's state *)

(** What holds of the sender's variables throughout a run: the arrays
    have their declared sizes, the indices and counters are in their
    ranges, and every buffered packet carries a sequence number of the
    sequence space. *)
Record sender_wf (s : sender) : Prop := {
  wf_buffer : length (buffer s) = Z.to_nat WINDOWSIZE;
  wf_acked : length (acked s) = Z.to_nat SEQSPACE;
  wf_windowfirst : 0 <= windowfirst s < WINDOWSIZE;
  wf_windowlast : -1 <= windowlast s < WINDOWSIZE;
  wf_windowcount : 0 <= windowcount s <= WINDOWSIZE;
  wf_nextseqnum : 0 <= A_nextseqnum s < SEQSPACE;
  wf_seqnums : Forall (fun p => 0 <= seqnum p < SEQSPACE) (buffer s)
}.

(** The packet stored [j] slots after the window head. *)
Definition slot_after (s : sender) (j : Z) : option pkt :=
  aref (buffer s) ((windowfirst s + j) mod WINDOWSIZE).

(** The flag of the sequence number of the packet [j] slots after the
    window head. *)
Definition slot_acked (s : sender) (j : Z) : option bool :=
  match slot_after s j with
  | Some p => aref (acked s) (seqnum p)
  | None => None
  end.

(** [s'] is [s] with the window slid by [k] slots: the head index has
    advanced [k] times and the count has gone down [k] times, each time
    past a slot whose sequence number was marked while packets were
    outstanding, and it has stopped at a slot that is not marked or with
    nothing outstanding. *)
Record slides (k : nat) (s s' : sender) : Prop := {
  sl_windowfirst : windowfirst s' = (windowfirst s + Z.of_nat k) mod WINDOWSIZE;
  sl_windowcount : windowcount s' = windowcount s - Z.of_nat k;
  sl_passed : forall j, (j < k)%nat ->
      windowcount s - Z.of_nat j > 0 /\ slot_acked s (Z.of_nat j) = Some true;
  sl_stopped :
      windowcount s' <= 0 \/ slot_acked s (Z.of_nat k) = Some false;
  sl_buffer : buffer s' = buffer s;
  sl_windowlast : windowlast s' = windowlast s;
  sl_nextseqnum : A_nextseqnum s' = A_nextseqnum s;
  sl_acked : acked s' = acked s;
  sl_window_full : window_full s' = window_full s;
  sl_new_ACKs : new_ACKs s' = new_ACKs s;
  sl_packets_resent : packets_resent s' = packets_resent s
}.

(** The state after one turn of the sliding loop. *)
Definition advanced (s : sender) : sender :=
  set_windowcount (windowcount s - 1)
    (set_windowfirst ((windowfirst s + 1) mod WINDOWSIZE) s).

(** The state after [A_input] has counted a new acknowledgment and set
    the flag of its [acknum]. *)
Definition marked (packet : pkt) (s : sender) : sender :=
  set_acked (<[Z.to_nat (acknum packet) := true]> (acked s))
    (set_new_ACKs (Int.add (new_ACKs s) 1) s).

(** The packet [A_output] makes of a message, with sequence number
    [seq]. *)
Definition data_pkt (seq : Z) (message : msg) : pkt :=
  let sendpkt := Pkt seq NOTINUSE 0 (fill (fun i => char_at (data message) i)) in
  set_checksum (ComputeChecksum sendpkt) sendpkt.

(** The state after [A_output] has taken a message into the window. *)
Definition accepted (message : msg) (s : sender) : sender :=
  let last := (windowlast s + 1) mod WINDOWSIZE in
  set_A_nextseqnum ((A_nextseqnum s + 1) mod SEQSPACE)
    (set_windowcount (windowcount s + 1)
       (set_buffer
          (<[Z.to_nat last := data_pkt (A_nextseqnum s) message]> (buffer s))
          (set_windowlast last s))).

(** ** Shape of the receiver's state and of its replies *)

Record receiver_wf (r : receiver) : Prop := {
  wf_recvpkt : length (recvpkt r) = Z.to_nat SEQSPACE;
  wf_received : length (received r) = Z.to_nat SEQSPACE;
  wf_expectedseqnum : 0 <= expectedseqnum r < SEQSPACE
}.

(** The number of flags that are set. *)
Fixpoint flags_set (l : list bool) : nat :=
  match l with
  | [] => 0
  | b :: l => (if b then 1 else 0) + flags_set l
  end.

(** The packet [B_input] sends in reply, made in the local [sendpkt]. *)
Definition ack_pkt (sendpkt : pkt) : pkt :=
  let sendpkt := set_acknum NOTINUSE sendpkt in
  let sendpkt := set_payload (fill (fun _ => 48)) sendpkt in
  set_checksum (ComputeChecksum sendpkt) sendpkt.

Definition is_delivery (e : event) : Prop :=
  match e with
  | tolayer5 B _ => True
  | _ => False
  end.

(** The receiver after [B_init]. *)
Definition receiver_initial : receiver :=
  Receiver 0 1 (repeat zero_pkt 12) (repeat false 12) 0.

(** ** States and packets of a short run *)

(** The sender after [A_init] and one [A_output] of [msg_a]. *)
Definition sender_one : sender :=
  Sender (pkt_a0 :: repeat zero_pkt 5) 0 0 1 1 (repeat false 12) 0 0 0.

(** An acknowledgment that names sequence number 0 and carries its
    checksum. *)
Definition ack_0 : pkt := Pkt 0 0 960 (repeat 48 PAYLOAD).

(** [sender_one] after [A_input] of [ack_0]. *)
Definition sender_acked : sender :=
  Sender (pkt_a0 :: repeat zero_pkt 5) 1 0 0 1 (true :: repeat false 11) 0 1 0.

(** The sender after [A_init] and six [A_output]s of [msg_a]: the
    window is full. *)
Definition sender_full : sender :=
  Sender (map (fun seq => data_pkt seq msg_a) [0; 1; 2; 3; 4; 5])
         0 5 6 6 (repeat false 12) 0 0 0.

(** The state after a sequence of calls, when they all return. *)
Fixpoint perform_all (cs : list call) (s : sender) : option sender :=
  match cs with
  | [] => Some s
  | c :: cs =>
      match run (perform c) s with
      | Ok (_, s', _) => perform_all cs s'
      | _ => None
      end
  end.

(** [pkt_a0] with the first byte of its payload overwritten, as the
    emulator does when it corrupts a packet. *)
Definition pkt_a0_hit : pkt := Pkt 0 (-1) 1939 (122 :: repeat 97 19).

(** [receiver_initial] after [B_input] of [pkt_a0]. *)
Definition receiver_one : receiver :=
  Receiver 1 1 (Pkt 0 0 0 (repeat 97 PAYLOAD) :: repeat zero_pkt 11)
           (repeat false 12) 1.

(** ** Running a routine *)

(** Unfolds the monad's operations and the array accessors, so that a
    routine applied to a state runs up to its next test or access. *)
Ltac exec :=
  cbv beta iota delta
    [run bind get modify emit ret lift fault
     buffer_at buffer_put acked_at acked_put
     recvpkt_at recvpkt_put received_at received_put].

(** ** The routines of B that do nothing *)

Definition B_output (message : msg) : M receiver unit := ret tt.

Definition B_timerinterrupt : M receiver unit := ret tt.

(** ** The window as a ring *)

(** The slot after [windowlast] is the one [windowcount] slots after
    [windowfirst]. *)
Definition ring (s : sender) : Prop :=
  (windowlast s + 1) mod WINDOWSIZE
  = (windowfirst s + windowcount s) mod WINDOWSIZE.

(** The sequence number that was given to the [j]-th oldest of the
    outstanding packets. *)
Definition window_seq (s : sender) (j : Z) : Z :=
  (A_nextseqnum s - windowcount s + j) mod SEQSPACE.

(** The outstanding packets are stored from the window head on, in the
    order in which they were sent, each as [A_output] made it. *)
Definition window_ok (s : sender) : Prop :=
  forall j, 0 <= j < windowcount s ->
    exists p,
      slot_after s j = Some p
      /\ seqnum p = window_seq s j
      /\ acknum p = NOTINUSE
      /\ IsCorrupted p = false.

Definition window_inv (s : sender) : Prop := ring s /\ window_ok s.

(** Two states with the same window: buffer, indices, count and next
    sequence number. *)
Definition same_window (s s' : sender) : Prop :=
  buffer s' = buffer s
  /\ windowfirst s' = windowfirst s
  /\ windowlast s' = windowlast s
  /\ windowcount s' = windowcount s
  /\ A_nextseqnum s' = A_nextseqnum s.

(** The calls a routine of A makes are calls for A. *)
Definition timer_call (e : event) : Prop :=
  match e with
  | starttimer A _ | stoptimer A => True
  | _ => False
  end.

(** Linear arithmetic with [mod] and [/] by constants. *)
Ltac mod_lia := Z.to_euclidean_division_equations; lia.

(** ** The receiver's buffer *)

(** The payload stored for sequence number [i]. *)
Definition stored (r : receiver) (i : Z) : list Z :=
  match aref (recvpkt r) i with
  | Some slot => payload slot
  | None => []
  end.

(** The sequence number [j] places after the cursor. *)
Definition cursor_after (r : receiver) (j : nat) : Z :=
  (expectedseqnum r + Z.of_nat j) mod SEQSPACE.

(** The state after [B_input] has counted a packet. *)
Definition counted (r : receiver) : receiver :=
  set_packets_received (Int.add (packets_received r) 1) r.

(** The state after [B_input] has counted a packet and stored it in
    its slot. *)
Definition cached (packet : pkt) (r : receiver) : receiver :=
  match aref (recvpkt r) (seqnum packet) with
  | Some slot =>
      set_recvpkt
        (<[Z.to_nat (seqnum packet) :=
             set_payload (fill (fun i => char_at (payload packet) i)) slot]>
           (recvpkt r))
        (set_received (<[Z.to_nat (seqnum packet) := true]> (received r))
           (counted r))
  | None => r
  end.

(** The state in which [B_input] enters its delivery loop: the packet
    is counted and, unless the flag of its sequence number was set,
    stored. *)
Definition arrived (packet : pkt) (r : receiver) : receiver :=
  match aref (received r) (seqnum packet) with
  | Some true => counted r
  | _ => cached packet r
  end.

(** The state after one turn of the delivery loop. *)
Definition delivered (r : receiver) : receiver :=
  set_expectedseqnum ((expectedseqnum r + 1) mod SEQSPACE)
    (set_received (<[Z.to_nat (expectedseqnum r) := false]> (received r)) r).

(** [r'] is [r] after the delivery loop has handed up [k] payloads,
    [ds] being the calls made: the payloads stored at the cursor and the
    [k - 1] places after it, each flagged, up to the first place that is
    not flagged (or once around the sequence space); the flags passed
    are cleared, the others kept. *)
Record delivers (k : nat) (r r' : receiver) (ds : list event) : Prop := {
  dl_cursor : expectedseqnum r' = cursor_after r k;
  dl_events :
    ds = map (fun j => tolayer5 B (stored r (cursor_after r j))) (seq 0 k);
  dl_flagged : forall j, (j < k)%nat ->
      aref (received r) (cursor_after r j) = Some true;
  dl_stop :
      k = Z.to_nat SEQSPACE \/ aref (received r) (cursor_after r k) = Some false;
  dl_count : (flags_set (received r') + k = flags_set (received r))%nat;
  dl_cleared : forall j, (j < k)%nat ->
      aref (received r') (cursor_after r j) = Some false;
  dl_kept : forall i, (forall j, (j < k)%nat -> i <> cursor_after r j) ->
      aref (received r') i = aref (received r) i;
  dl_recvpkt : recvpkt r' = recvpkt r;
  dl_B_nextseqnum : B_nextseqnum r' = B_nextseqnum r;
  dl_packets_received : packets_received r' = packets_received r
}.

(** Runs of the receiver: [B_init] is called once, on the static state,
    and then the emulator calls [B_input] with the packets that arrive;
    [sendpkt] is what the local of that name holds at the call. *)
Inductive receiver_reachable : receiver -> Prop :=
| rreach_init r log :
    run B_init receiver_static = Ok (tt, r, log) -> receiver_reachable r
| rreach_input r sendpkt packet r' log :
    receiver_reachable r ->
    run (B_input sendpkt packet) r = Ok (tt, r', log) ->
    receiver_reachable r'.

(** ** A window whose head is marked *)

(** Packets are outstanding and the sequence number of the one at the
    window head has its flag set. *)
Definition head_marked (s : sender) : Prop :=
  windowcount s > 0 /\ slot_acked s 0 = Some true.

(** An acknowledgment that names sequence number [q] and carries its
    checksum. *)
Definition ack_for (q : Z) : pkt := Pkt 0 q (q + 960) (repeat 48 PAYLOAD).

(** Twelve messages, each acknowledged before the next is sent, and a
    thirteenth. *)
Definition calls_around : list call :=
  flat_map (fun q => [call_A_output msg_a; call_A_input (ack_for q)])
           [0; 1; 2; 3; 4; 5; 6; 7; 8; 9; 10; 11]
  ++ [call_A_output msg_a].

(** The sender after [calls_around]: the thirteenth packet has sequence
    number 0 again. *)
Definition sender_around : sender :=
  Sender (data_pkt 0 msg_a :: map (fun q => data_pkt q msg_a) [7; 8; 9; 10; 11])
         0 0 1 1 (repeat true 12) 0 12 0.

(** * Properties *)

(** ** First steps of a run *)

Example A_init_static : run A_init sender_static = Ok (tt, sender_initial, []).
Proof. reflexivity. Qed.

Example A_output_first :
  run (A_output msg_a) sender_initial
  = Ok (tt,
        Sender (pkt_a0 :: repeat zero_pkt 5) 0 0 1 1 (repeat false 12) 0 0 0,
        [tolayer3 A pkt_a0; starttimer A RTT]).
Proof. reflexivity. Qed.

(** ** Arithmetic of [int] *)

Lemma wrap_small z : Int.in_range z -> Int.wrap z = z.
Proof.
  unfold Int.in_range, Int.wrap, Int.half, Int.modulus. intros H.
  rewrite Z.mod_small; lia.
Qed.

Lemma wrap_in_range z : Int.in_range (Int.wrap z).
Proof.
  unfold Int.in_range, Int.wrap, Int.half, Int.modulus.
  pose proof (Z.mod_pos_bound (z + 2 ^ 31) (2 ^ 32)). lia.
Qed.

(** [wrap] picks a representative of the class modulo [2^32]. *)
Lemma wrap_congr z : exists q, Int.wrap z = z + q * Int.modulus.
Proof.
  exists (- ((z + Int.half) / Int.modulus)).
  unfold Int.wrap. rewrite Z.mod_eq by (unfold Int.modulus; lia). lia.
Qed.

Lemma wrap_shift z q : Int.wrap (z + q * Int.modulus) = Int.wrap z.
Proof.
  unfold Int.wrap.
  replace (z + q * Int.modulus + Int.half) with (z + Int.half + q * Int.modulus) by lia.
  rewrite Z.mod_add by (unfold Int.modulus; lia). reflexivity.
Qed.

Lemma wrap_add_l a b : Int.wrap (Int.wrap a + b) = Int.wrap (a + b).
Proof.
  destruct (wrap_congr a) as [q ->].
  replace (a + q * Int.modulus + b) with (a + b + q * Int.modulus) by lia.
  apply wrap_shift.
Qed.

(** Two results less than [2^32] apart wrap to different [int]s. *)
Lemma wrap_apart a d :
  d <> 0 -> - Int.modulus < d < Int.modulus -> Int.wrap (a + d) <> Int.wrap a.
Proof.
  intros Hd Hr Heq.
  destruct (wrap_congr (a + d)) as [q1 H1], (wrap_congr a) as [q2 H2].
  rewrite H1, H2 in Heq. unfold Int.modulus in *.
  assert (d = (q2 - q1) * 2 ^ 32) by lia. nia.
Qed.

Lemma unsigned_congr z : exists q, Int.unsigned z = z + q * Int.modulus.
Proof.
  exists (- (z / Int.modulus)). unfold Int.unsigned.
  rewrite Z.mod_eq by (unfold Int.modulus; lia). lia.
Qed.

Lemma get_byte_range k z : 0 <= Int.get_byte k z < 256.
Proof. unfold Int.get_byte. apply Z.mod_pos_bound. lia. Qed.

(** Replacing one byte moves the value, modulo [2^32], by the change of
    the byte times its weight. *)
Lemma set_byte_congr k b z :
  exists q,
    Int.set_byte k b z = z + (b - Int.get_byte k z) * 256 ^ Z.of_nat k + q * Int.modulus.
Proof.
  unfold Int.set_byte.
  destruct (wrap_congr (Int.unsigned z + (b - Int.get_byte k z) * 256 ^ Z.of_nat k))
    as [q1 ->].
  destruct (unsigned_congr z) as [q2 ->].
  exists (q1 + q2). lia.
Qed.

Example set_byte_low : Int.set_byte 0 255 0 = 255.
Proof. reflexivity. Qed.

Example set_byte_high : Int.set_byte 3 255 0 = -16777216.
Proof. reflexivity. Qed.

Example set_byte_sign : Int.set_byte 3 127 (-1) = 2147483647.
Proof. reflexivity. Qed.

(** ** The checksum is the wrapped sum *)

Lemma checksum_fold (f : nat -> Z) (l : list nat) c :
  fold_left (fun acc i => Int.add acc (f i)) l (Int.wrap c)
  = Int.wrap (c + sumZ (map f l)).
Proof.
  revert c. induction l as [|i l IH]; intros c; simpl.
  - f_equal. lia.
  - unfold Int.add at 2. rewrite wrap_add_l, IH. f_equal. lia.
Qed.

Lemma ComputeChecksum_sum p :
  ComputeChecksum p
  = Int.wrap (seqnum p + acknum p + sumZ (fill (char_at (payload p)))).
Proof.
  unfold ComputeChecksum, fill. unfold Int.add at 2.
  apply checksum_fold.
Qed.

Lemma fill_char_at l : length l = PAYLOAD -> fill (char_at l) = l.
Proof.
  intros H. unfold fill. rewrite <- H. clear H.
  unfold char_at.
  apply nth_ext with (d := 0) (d' := 0).
  - rewrite length_map, length_seq. reflexivity.
  - intros n Hn. rewrite length_map, length_seq in Hn.
    rewrite (nth_indep _ 0 (nth 0%nat l 0)) by (rewrite length_map, length_seq; lia).
    rewrite map_nth with (f := fun i => nth i l 0).
    rewrite seq_nth by lia. reflexivity.
Qed.

Lemma sumZ_insert (l : list Z) i c :
  (i < length l)%nat -> sumZ (<[i := c]> l) = sumZ l + (c - nth i l 0).
Proof.
  revert i. induction l as [|x l IH]; intros [|i] H; simpl in *; try lia.
  rewrite IH by lia. lia.
Qed.

Lemma Forall_nth_char (l : list Z) i :
  Forall char_range l -> (i < length l)%nat -> char_range (nth i l 0).
Proof.
  intros HF Hi. rewrite Forall_forall in HF. apply HF.
  apply list_elem_of_In. apply nth_In. exact Hi.
Qed.

Lemma IsCorrupted_false p : IsCorrupted p = false <-> checksum p = ComputeChecksum p.
Proof.
  unfold IsCorrupted. destruct (Z.eqb_spec (checksum p) (ComputeChecksum p)); split;
    intros; congruence.
Qed.

Lemma IsCorrupted_true p : IsCorrupted p = true <-> checksum p <> ComputeChecksum p.
Proof.
  unfold IsCorrupted. destruct (Z.eqb_spec (checksum p) (ComputeChecksum p)); split;
    intros; congruence.
Qed.

Lemma byte_weight k : (k < 4)%nat -> 0 < 256 ^ Z.of_nat k <= 256 ^ 3.
Proof.
  intros H. destruct k as [|[|[|[|k]]]]; try lia; vm_compute; split; congruence.
Qed.

Lemma header_delta k b old :
  (k < 4)%nat -> 0 <= b < 256 -> 0 <= old < 256 -> b <> old ->
  let d := (b - old) * 256 ^ Z.of_nat k in
  d <> 0 /\ - Int.modulus < d < Int.modulus.
Proof.
  intros Hk Hb Ho Hne d. subst d. pose proof (byte_weight k Hk) as Hw.
  unfold Int.modulus. change (256 ^ 3) with 16777216 in Hw.
  change (2 ^ 32) with 4294967296. nia.
Qed.

(** C6. A packet that carries its checksum, with one byte of its
    sequence number, of its acknowledgment number or of its payload
    changed and its checksum field kept, is found corrupted by
    [IsCorrupted]. *)
Theorem checksum_detects_single_byte (p : pkt) (m : mutation) :
  pkt_ok p ->
  IsCorrupted p = false ->
  changes_one_byte m p ->
  checksum (mutate m p) = checksum p /\ IsCorrupted (mutate m p) = true.
Proof.
  intros Hok Hp Hm. split; [destruct m; reflexivity|].
  apply IsCorrupted_false in Hp. apply IsCorrupted_true.
  rewrite ComputeChecksum_sum in *.
  destruct m as [k b|k b|i c];
    cbn [mutate changes_one_byte set_seqnum set_acknum set_payload
         seqnum acknum payload checksum] in *.
  - destruct Hm as (Hk & Hb & Hne). rewrite Hp.
    destruct (set_byte_congr k b (seqnum p)) as [q ->].
    pose proof (header_delta k b _ Hk Hb (get_byte_range k (seqnum p)) Hne) as [Hd Hr].
    cbv zeta in Hd, Hr. intros Heq. symmetry in Heq. revert Heq.
    match goal with |- Int.wrap ?x = _ -> _ =>
      replace x with
        (seqnum p + acknum p + sumZ (fill (char_at (payload p)))
         + (b - Int.get_byte k (seqnum p)) * 256 ^ Z.of_nat k + q * Int.modulus) by lia
    end.
    rewrite wrap_shift. apply wrap_apart; assumption.
  - destruct Hm as (Hk & Hb & Hne). rewrite Hp.
    destruct (set_byte_congr k b (acknum p)) as [q ->].
    pose proof (header_delta k b _ Hk Hb (get_byte_range k (acknum p)) Hne) as [Hd Hr].
    cbv zeta in Hd, Hr. intros Heq. symmetry in Heq. revert Heq.
    match goal with |- Int.wrap ?x = _ -> _ =>
      replace x with
        (seqnum p + acknum p + sumZ (fill (char_at (payload p)))
         + (b - Int.get_byte k (acknum p)) * 256 ^ Z.of_nat k + q * Int.modulus) by lia
    end.
    rewrite wrap_shift. apply wrap_apart; assumption.
  - destruct Hm as (Hi & Hc & Hne). rewrite Hp.
    destruct Hok as [_ _ _ Hlen Hchars].
    rewrite (fill_char_at (payload p)) by exact Hlen.
    rewrite fill_char_at by (rewrite length_insert; exact Hlen).
    rewrite sumZ_insert by lia.
    pose proof (Forall_nth_char (payload p) i Hchars ltac:(lia)) as Hold.
    unfold char_at in Hne. unfold char_range in *.
    intros Heq. symmetry in Heq. revert Heq.
    match goal with |- Int.wrap ?x = _ -> _ =>
      replace x with
        (seqnum p + acknum p + sumZ (payload p) + (c - nth i (payload p) 0)) by lia
    end.
    apply wrap_apart; unfold Int.modulus; lia.
Qed.

Lemma pkt_a0_ok : pkt_ok pkt_a0.
Proof.
  split; try (unfold Int.in_range, Int.half; simpl; lia); [reflexivity|].
  repeat constructor; unfold char_range; lia.
Qed.

Lemma checksum_detects_single_byte_witness :
  pkt_ok pkt_a0
  /\ IsCorrupted pkt_a0 = false
  /\ changes_one_byte (mut_payload 0 122) pkt_a0
  /\ checksum (mutate (mut_payload 0 122) pkt_a0) = checksum pkt_a0
  /\ IsCorrupted (mutate (mut_payload 0 122) pkt_a0) = true.
Proof.
  assert (Hm : changes_one_byte (mut_payload 0 122) pkt_a0).
  { split; [unfold PAYLOAD; lia|]. split; [unfold char_range; lia|].
    intros H. vm_compute in H. discriminate H. }
  split; [exact pkt_a0_ok|]. split; [reflexivity|]. split; [exact Hm|].
  apply (checksum_detects_single_byte pkt_a0 (mut_payload 0 122));
    [exact pkt_a0_ok | reflexivity | exact Hm].
Defined.

(** ** Array accesses *)

Lemma aref_Some {X} (a : list X) i x :
  aref a i = Some x -> 0 <= i < Z.of_nat (length a).
Proof.
  unfold aref. destruct (Z.leb_spec 0 i) as [Hi|Hi]; [|discriminate].
  intros Hx. apply lookup_lt_Some in Hx. lia.
Qed.

Lemma aref_in_range {X} (a : list X) i :
  0 <= i < Z.of_nat (length a) -> exists x, aref a i = Some x.
Proof.
  intros H. unfold aref. destruct (Z.leb_spec 0 i); [|lia].
  destruct (lookup_lt_is_Some_2 a (Z.to_nat i)) as [x Hx]; [lia|]. eauto.
Qed.

Lemma aref_negative {X} (a : list X) i : i < 0 -> aref a i = None.
Proof. intros H. unfold aref. destruct (Z.leb_spec 0 i); [lia|reflexivity]. Qed.

Lemma aset_in_range {X} (a : list X) i x :
  0 <= i < Z.of_nat (length a) -> aset a i x = Some (<[Z.to_nat i := x]> a).
Proof.
  intros H. unfold aset.
  destruct (Z.leb_spec 0 i); [|lia]. destruct (Z.ltb_spec i (Z.of_nat (length a))); [|lia].
  reflexivity.
Qed.

Lemma aref_insert_eq {X} (a : list X) i x :
  0 <= i < Z.of_nat (length a) -> aref (<[Z.to_nat i := x]> a) i = Some x.
Proof.
  intros H. unfold aref. destruct (Z.leb_spec 0 i); [|lia].
  apply list_lookup_insert_eq. lia.
Qed.

Lemma aref_insert_ne {X} (a : list X) i j x :
  0 <= i -> i <> j -> aref (<[Z.to_nat i := x]> a) j = aref a j.
Proof.
  intros Hi Hne. unfold aref. destruct (Z.leb_spec 0 j); [|reflexivity].
  apply list_lookup_insert_ne. lia.
Qed.

(** ** The routines that do not loop *)

(** C7. A corrupted packet leaves every variable of the receiver as it
    was and makes [B_input] call nothing of the emulator: no
    acknowledgment goes out. *)
Theorem B_input_corrupted_dropped (sendpkt packet : pkt) (r : receiver) :
  IsCorrupted packet = true ->
  run (B_input sendpkt packet) r = Ok (tt, r, []).
Proof. intros H. unfold run, B_input. rewrite H. reflexivity. Qed.

Lemma B_input_corrupted_dropped_witness :
  IsCorrupted pkt_a0_hit = true
  /\ run (B_input zero_pkt pkt_a0_hit) receiver_initial
     = Ok (tt, receiver_initial, []).
Proof.
  split; [reflexivity|].
  apply (B_input_corrupted_dropped zero_pkt pkt_a0_hit receiver_initial).
  reflexivity.
Defined.

(** C8. With [WINDOWSIZE] packets outstanding, [A_output] refuses the
    message: it returns with the window buffer, both window indices, the
    outstanding count, the next sequence number and the acked flags as
    they were, having sent no packet and started no timer; only the
    emulator's count of refused messages goes up. *)
Theorem A_output_window_full (message : msg) (s : sender) :
  windowcount s = WINDOWSIZE ->
  exists s',
    run (A_output message) s = Ok (tt, s', [])
    /\ buffer s' = buffer s
    /\ windowfirst s' = windowfirst s
    /\ windowlast s' = windowlast s
    /\ windowcount s' = windowcount s
    /\ A_nextseqnum s' = A_nextseqnum s
    /\ acked s' = acked s
    /\ window_full s' = Int.add (window_full s) 1.
Proof.
  intros H. eexists. unfold run, A_output, bind, get. rewrite H.
  change (WINDOWSIZE <? WINDOWSIZE) with false. cbv beta iota.
  unfold modify. split; [reflexivity|]. repeat split. exact H.
Qed.

Lemma A_output_window_full_witness :
  windowcount sender_full = WINDOWSIZE
  /\ exists s',
       run (A_output msg_a) sender_full = Ok (tt, s', [])
       /\ buffer s' = buffer sender_full
       /\ windowfirst s' = windowfirst sender_full
       /\ windowlast s' = windowlast sender_full
       /\ windowcount s' = windowcount sender_full
       /\ A_nextseqnum s' = A_nextseqnum sender_full
       /\ acked s' = acked sender_full
       /\ window_full s' = Int.add (window_full sender_full) 1.
Proof.
  split; [reflexivity|].
  apply (A_output_window_full msg_a sender_full). reflexivity.
Defined.

(** C9. On a timer interrupt the sender passes one packet to layer 3,
    the one stored at [windowfirst], and starts the timer again exactly
    when packets are outstanding afterwards; the window itself is not
    touched. *)
Theorem A_timerinterrupt_resends_head (s : sender) (head : pkt) :
  aref (buffer s) (windowfirst s) = Some head ->
  exists s',
    run A_timerinterrupt s
    = Ok (tt, s',
          tolayer3 A head
          :: (if windowcount s' >? 0 then [starttimer A RTT] else []))
    /\ buffer s' = buffer s
    /\ windowfirst s' = windowfirst s
    /\ windowlast s' = windowlast s
    /\ windowcount s' = windowcount s
    /\ A_nextseqnum s' = A_nextseqnum s
    /\ acked s' = acked s.
Proof.
  intros H. exists (set_packets_resent (Int.add (packets_resent s) 1) s).
  split; [|repeat split].
  unfold run, A_timerinterrupt, buffer_at, bind, get. rewrite H.
  unfold lift, ret, emit, modify. cbn [app windowcount set_packets_resent].
  destruct (windowcount s >? 0); reflexivity.
Qed.

Lemma A_timerinterrupt_resends_head_witness :
  aref (buffer sender_one) (windowfirst sender_one) = Some pkt_a0
  /\ exists s',
       run A_timerinterrupt sender_one
       = Ok (tt, s',
             tolayer3 A pkt_a0
             :: (if windowcount s' >? 0 then [starttimer A RTT] else []))
       /\ buffer s' = buffer sender_one
       /\ windowfirst s' = windowfirst sender_one
       /\ windowlast s' = windowlast sender_one
       /\ windowcount s' = windowcount sender_one
       /\ A_nextseqnum s' = A_nextseqnum sender_one
       /\ acked s' = acked sender_one.
Proof.
  split; [reflexivity|].
  apply (A_timerinterrupt_resends_head sender_one pkt_a0). reflexivity.
Defined.

(** [B_init] assigns the cursor and [B_nextseqnum] and nothing else. *)
Lemma B_init_run (r : receiver) :
  run B_init r = Ok (tt, set_B_nextseqnum 1 (set_expectedseqnum 0 r), []).
Proof. reflexivity. Qed.




(** ** Index arithmetic *)

Lemma succ_small x : 0 <= x + 1 < 1000 -> Int.add x 1 = x + 1.
Proof.
  intros H. unfold Int.add. apply wrap_small.
  unfold Int.in_range, Int.half. lia.
Qed.

Lemma pred_small x : 0 <= x - 1 < 1000 -> Int.sub x 1 = x - 1.
Proof.
  intros H. unfold Int.sub. apply wrap_small.
  unfold Int.in_range, Int.half. lia.
Qed.

Lemma next_index x n :
  0 < n -> 0 <= x + 1 < 1000 -> Z.rem (Int.add x 1) n = (x + 1) mod n.
Proof.
  intros Hn Hx. rewrite succ_small by exact Hx.
  apply Z.rem_mod_nonneg; lia.
Qed.

(** ** The sender's state keeps its shape *)

Lemma sender_initial_wf : sender_wf sender_initial.
Proof.
  split; try reflexivity; try (unfold WINDOWSIZE, SEQSPACE; simpl; lia).
  simpl. repeat constructor; simpl; unfold SEQSPACE; lia.
Qed.

Lemma wf_head (s : sender) :
  sender_wf s ->
  exists head, aref (buffer s) (windowfirst s) = Some head
               /\ 0 <= seqnum head < SEQSPACE.
Proof.
  intros W. destruct (aref_in_range (buffer s) (windowfirst s)) as [head Hh].
  - rewrite (wf_buffer s W). pose proof (wf_windowfirst s W).
    unfold WINDOWSIZE in *. lia.
  - exists head. split; [exact Hh|].
    pose proof (wf_seqnums s W) as HF. rewrite Forall_forall in HF. apply HF.
    unfold aref in Hh. destruct (0 <=? windowfirst s); [|discriminate].
    eapply list_elem_of_lookup_2. exact Hh.
Qed.

Lemma wf_flag (s : sender) i :
  sender_wf s -> 0 <= i < SEQSPACE -> exists a, aref (acked s) i = Some a.
Proof.
  intros W Hi. apply aref_in_range. rewrite (wf_acked s W).
  unfold SEQSPACE in *. lia.
Qed.

(** ** The window-sliding loop *)

Lemma slot_acked_head (s : sender) :
  sender_wf s ->
  slot_acked s 0
  = match aref (buffer s) (windowfirst s) with
    | Some p => aref (acked s) (seqnum p)
    | None => None
    end.
Proof.
  intros W. unfold slot_acked, slot_after.
  rewrite Z.add_0_r, Z.mod_small by apply (wf_windowfirst s W). reflexivity.
Qed.

Lemma slide_cond_run (s : sender) log :
  sender_wf s ->
  exists c,
    slide_cond s log = Ok (c, s, log)
    /\ (c = true -> windowcount s > 0 /\ slot_acked s 0 = Some true)
    /\ (c = false -> windowcount s <= 0 \/ slot_acked s 0 = Some false).
Proof.
  intros W. unfold slide_cond, bind, get.
  destruct (Z.gtb_spec (windowcount s) 0) as [Hc|Hc].
  - destruct (wf_head s W) as (head & Hh & Hr).
    destruct (wf_flag s (seqnum head) W Hr) as [a Ha].
    exists a. rewrite (slot_acked_head s W), Hh.
    unfold buffer_at, acked_at, bind, get. rewrite Hh. cbn [lift ret].
    rewrite Ha. cbn [lift ret]. split; [reflexivity|].
    split; intros ->; [split; [lia|reflexivity] | right; reflexivity].
  - exists false. split; [reflexivity|]. split; [discriminate|]. left. lia.
Qed.

Lemma slide_body_run (s : sender) log :
  sender_wf s -> windowcount s > 0 ->
  slide_body s log = Ok (tt, advanced s, log).
Proof.
  intros W Hc. unfold slide_body, bind, modify, advanced.
  cbn [windowcount set_windowfirst windowfirst].
  pose proof (wf_windowfirst s W) as Hf. pose proof (wf_windowcount s W) as Hn.
  unfold WINDOWSIZE in *.
  rewrite next_index by lia. rewrite pred_small by lia. reflexivity.
Qed.

Lemma advanced_wf (s : sender) :
  sender_wf s -> windowcount s > 0 -> sender_wf (advanced s).
Proof.
  intros W Hc. destruct W as [Hb Ha Hf Hl Hn Hq Hs].
  split; cbn; try assumption; unfold WINDOWSIZE in *.
  - apply Z.mod_pos_bound. lia.
  - lia.
Qed.

Lemma slot_acked_advanced (s : sender) j :
  slot_acked (advanced s) j = slot_acked s (j + 1).
Proof.
  unfold slot_acked, slot_after, advanced. cbn.
  rewrite Z.add_mod_idemp_l by (unfold WINDOWSIZE; lia).
  replace (windowfirst s + 1 + j) with (windowfirst s + (j + 1)) by lia.
  reflexivity.
Qed.

Lemma slides_zero (s : sender) :
  sender_wf s ->
  windowcount s <= 0 \/ slot_acked s 0 = Some false ->
  slides 0 s s.
Proof.
  intros W Hstop. split; try reflexivity.
  - rewrite Z.add_0_r, Z.mod_small by apply (wf_windowfirst s W). reflexivity.
  - simpl. lia.
  - intros j Hj. lia.
  - exact Hstop.
Qed.

Lemma slides_succ (s s' : sender) k :
  sender_wf s ->
  windowcount s > 0 -> slot_acked s 0 = Some true ->
  slides k (advanced s) s' -> slides (S k) s s'.
Proof.
  intros W Hc Ha [Hf Hn Hp Hst Hb Hl Hq Hk Hw Hnew Hres].
  split; try assumption.
  - rewrite Hf. unfold advanced. cbn.
    rewrite Z.add_mod_idemp_l by (unfold WINDOWSIZE; lia). f_equal. lia.
  - rewrite Hn. unfold advanced. cbn. lia.
  - intros [|j] Hj.
    + split; [simpl; lia | exact Ha].
    + destruct (Hp j ltac:(lia)) as [Hj1 Hj2].
      rewrite slot_acked_advanced in Hj2. unfold advanced in Hj1. cbn in Hj1.
      split; [lia|].
      replace (Z.of_nat (S j)) with (Z.of_nat j + 1) by lia. exact Hj2.
  - destruct Hst as [Hst|Hst]; [left; exact Hst|right].
    rewrite slot_acked_advanced in Hst.
    replace (Z.of_nat (S k)) with (Z.of_nat k + 1) by lia. exact Hst.
Qed.

(** The loop returns, whatever the state (of the right shape) it starts
    in, with the window slid. *)
Lemma slide_loop (n : nat) (s : sender) log :
  sender_wf s -> (Z.to_nat (windowcount s) < n)%nat ->
  exists k s',
    while n slide_cond slide_body s log = Ok (tt, s', log)
    /\ slides k s s' /\ sender_wf s'.
Proof.
  revert s. induction n as [|n IH]; intros s W Hn; [lia|].
  cbn [while]. unfold bind at 1.
  destruct (slide_cond_run s log W) as (c & -> & Ht & Hf).
  destruct c.
  - destruct (Ht eq_refl) as [Hc Ha]. unfold bind at 1.
    rewrite (slide_body_run s log W Hc).
    destruct (IH (advanced s) (advanced_wf s W Hc)) as (k & s' & Hrun & Hsl & W').
    { unfold advanced. cbn. lia. }
    exists (S k), s'. split; [exact Hrun|]. split; [|exact W'].
    apply slides_succ; assumption.
  - exists 0%nat, s. split; [reflexivity|]. split; [|exact W].
    apply slides_zero; [exact W|]. apply Hf. reflexivity.
Qed.

Lemma slides_count (k : nat) (s s' : sender) :
  slides k s s' -> 0 <= windowcount s -> 0 <= windowcount s' <= windowcount s.
Proof.
  intros Hsl H0. rewrite (sl_windowcount k s s' Hsl).
  destruct k as [|k]; [lia|].
  destruct (sl_passed (S k) s s' Hsl k ltac:(lia)) as [Hk _]. lia.
Qed.

(** ** [A_input], case by case *)

Lemma A_input_corrupted (packet : pkt) (s : sender) :
  IsCorrupted packet = true -> run (A_input packet) s = Ok (tt, s, []).
Proof. intros H. unfold run, A_input. rewrite H. reflexivity. Qed.

Lemma A_input_out_of_bounds (packet : pkt) (s : sender) :
  IsCorrupted packet = false -> aref (acked s) (acknum packet) = None ->
  run (A_input packet) s = OutOfBounds.
Proof.
  intros H Ha. unfold run, A_input. rewrite H. cbn [negb].
  unfold bind at 1. unfold acked_at, bind, get. rewrite Ha. reflexivity.
Qed.

Lemma A_input_duplicate (packet : pkt) (s : sender) :
  IsCorrupted packet = false -> aref (acked s) (acknum packet) = Some true ->
  run (A_input packet) s = Ok (tt, s, []).
Proof.
  intros H Ha. unfold run, A_input. rewrite H. cbn [negb].
  unfold bind at 1. unfold acked_at, bind, get. rewrite Ha. reflexivity.
Qed.

Lemma marked_wf (packet : pkt) (s : sender) :
  sender_wf s -> sender_wf (marked packet s).
Proof.
  intros [Hb Ha Hf Hl Hn Hq Hs]. split; cbn; try assumption.
  rewrite length_insert. exact Ha.
Qed.

Lemma marked_flag (packet : pkt) (s : sender) :
  0 <= acknum packet < Z.of_nat (length (acked s)) ->
  aref (acked (marked packet s)) (acknum packet) = Some true.
Proof. intros H. cbn. apply aref_insert_eq. exact H. Qed.

Lemma A_input_fresh (packet : pkt) (s : sender) :
  sender_wf s ->
  IsCorrupted packet = false -> aref (acked s) (acknum packet) = Some false ->
  exists head,
    aref (buffer s) (windowfirst s) = Some head
    /\ if acknum packet =? seqnum head then
         exists k s',
           slides k (marked packet s) s' /\ sender_wf s'
           /\ run (A_input packet) s
              = Ok (tt, s',
                    stoptimer A
                    :: (if windowcount s' >? 0 then [starttimer A RTT] else []))
       else run (A_input packet) s = Ok (tt, marked packet s, []).
Proof.
  intros W H Ha. destruct (wf_head s W) as (head & Hh & _).
  exists head. split; [exact Hh|].
  pose proof (aref_Some _ _ _ Ha) as Hr.
  unfold A_input. rewrite H. cbn [negb].
  exec. rewrite Ha. exec. cbn [negb acked set_new_ACKs].
  rewrite (aset_in_range (acked s)) by exact Hr. exec.
  fold (marked packet s).
  change (buffer (marked packet s)) with (buffer s).
  change (windowfirst (marked packet s)) with (windowfirst s).
  rewrite Hh. exec.
  destruct (acknum packet =? seqnum head); [|reflexivity].
  pose proof (marked_wf packet s W) as Wm.
  destruct (slide_loop (slide_fuel (marked packet s)) (marked packet s) [] Wm)
    as (k & s' & Hrun & Hsl & W').
  { unfold slide_fuel. lia. }
  exists k, s'. split; [exact Hsl|]. split; [exact W'|].
  rewrite Hrun. exec. cbn [app].
  destruct (windowcount s' >? 0); reflexivity.
Qed.

Lemma A_input_wf (packet : pkt) (s s' : sender) log :
  sender_wf s -> run (A_input packet) s = Ok (tt, s', log) -> sender_wf s'.
Proof.
  intros W Hrun. destruct (IsCorrupted packet) eqn:Hc.
  - rewrite A_input_corrupted in Hrun by exact Hc. congruence.
  - destruct (aref (acked s) (acknum packet)) as [[|]|] eqn:Ha.
    + rewrite A_input_duplicate in Hrun by assumption. congruence.
    + destruct (A_input_fresh packet s W Hc Ha) as (head & _ & Hcase).
      destruct (acknum packet =? seqnum head).
      * destruct Hcase as (k & s1 & _ & W1 & Hrun1). congruence.
      * rewrite Hcase in Hrun. inversion Hrun; subst. apply marked_wf, W.
    + rewrite A_input_out_of_bounds in Hrun by assumption. discriminate.
Qed.

(** ** [A_output] and [A_timerinterrupt] *)

Lemma A_output_accepts (message : msg) (s : sender) :
  sender_wf s -> windowcount s < WINDOWSIZE ->
  run (A_output message) s
  = Ok (tt, accepted message s,
        tolayer3 A (data_pkt (A_nextseqnum s) message)
        :: (if windowcount (accepted message s) =? 1
            then [starttimer A RTT] else [])).
Proof.
  intros W Hc. pose proof W as [Hb Ha Hf Hl Hn Hq Hs].
  unfold A_output. exec.
  destruct (Z.ltb_spec (windowcount s) WINDOWSIZE) as [_|?]; [|lia].
  cbn [windowlast set_windowlast buffer windowcount set_buffer set_windowcount
       A_nextseqnum set_A_nextseqnum].
  unfold accepted, data_pkt, WINDOWSIZE, SEQSPACE in *.
  rewrite (next_index (windowlast s)) by lia.
  pose proof (Z.mod_pos_bound (windowlast s + 1) 6 ltac:(lia)) as Hw.
  rewrite aset_in_range by (rewrite Hb; lia). exec.
  cbn [windowlast set_windowlast buffer windowcount set_buffer set_windowcount
       A_nextseqnum set_A_nextseqnum].
  rewrite (succ_small (windowcount s)) by lia.
  destruct (windowcount s + 1 =? 1); exec;
    cbn [windowlast set_windowlast buffer windowcount set_buffer set_windowcount
         A_nextseqnum set_A_nextseqnum];
    rewrite (next_index (A_nextseqnum s)) by lia; reflexivity.
Qed.

Lemma A_output_refuses (message : msg) (s : sender) :
  WINDOWSIZE <= windowcount s ->
  run (A_output message) s
  = Ok (tt, set_window_full (Int.add (window_full s) 1) s, []).
Proof.
  intros Hc. unfold A_output. exec.
  destruct (Z.ltb_spec (windowcount s) WINDOWSIZE) as [?|_]; [lia|]. reflexivity.
Qed.

Lemma accepted_wf (message : msg) (s : sender) :
  sender_wf s -> windowcount s < WINDOWSIZE -> sender_wf (accepted message s).
Proof.
  intros [Hb Ha Hf Hl Hn Hq Hs] Hc. unfold WINDOWSIZE, SEQSPACE in *.
  pose proof (Z.mod_pos_bound (windowlast s + 1) 6 ltac:(lia)) as Hw.
  pose proof (Z.mod_pos_bound (A_nextseqnum s + 1) 12 ltac:(lia)) as Hx.
  split; cbn; unfold WINDOWSIZE, SEQSPACE; try assumption; try lia.
  - rewrite length_insert. exact Hb.
  - apply Forall_insert; [exact Hs|]. cbn. exact Hq.
Qed.

Lemma A_output_wf (message : msg) (s s' : sender) log :
  sender_wf s -> run (A_output message) s = Ok (tt, s', log) -> sender_wf s'.
Proof.
  intros W Hrun. destruct (Z.lt_ge_cases (windowcount s) WINDOWSIZE) as [Hc|Hc].
  - rewrite A_output_accepts in Hrun by assumption.
    inversion Hrun; subst. apply accepted_wf; assumption.
  - rewrite A_output_refuses in Hrun by assumption.
    inversion Hrun; subst. destruct W. split; assumption.
Qed.

Lemma A_timerinterrupt_wf (s s' : sender) log :
  sender_wf s -> run A_timerinterrupt s = Ok (tt, s', log) -> sender_wf s'.
Proof.
  intros W Hrun. destruct (wf_head s W) as (head & Hh & _).
  revert Hrun. unfold A_timerinterrupt. exec. rewrite Hh. exec.
  cbn [windowcount set_packets_resent].
  destruct (windowcount s >? 0); intros Hrun; inversion Hrun; subst;
    destruct W; split; assumption.
Qed.

Lemma perform_wf (c : call) (s s' : sender) log :
  sender_wf s -> run (perform c) s = Ok (tt, s', log) -> sender_wf s'.
Proof.
  destruct c as [message|packet|]; cbn [perform].
  - apply A_output_wf.
  - apply A_input_wf.
  - apply A_timerinterrupt_wf.
Qed.

Lemma reachable_wf (s : sender) : reachable s -> sender_wf s.
Proof.
  induction 1 as [s log Hinit | s c s' log _ IH Hrun].
  - rewrite A_init_static in Hinit. inversion Hinit; subst.
    apply sender_initial_wf.
  - eapply perform_wf; eassumption.
Qed.

(** ** The window bound *)

(** C4. In every state the sender reaches from its initial state by
    calls of [A_output], [A_input] and [A_timerinterrupt], the number of
    outstanding packets is at least 0 and at most [WINDOWSIZE]. *)
Theorem windowcount_bounded (s : sender) :
  reachable s -> 0 <= windowcount s <= WINDOWSIZE.
Proof. intros H. apply wf_windowcount, reachable_wf, H. Qed.

Lemma perform_all_reachable (cs : list call) (s s' : sender) :
  reachable s -> perform_all cs s = Some s' -> reachable s'.
Proof.
  revert s. induction cs as [|c cs IH]; intros s Hs; cbn [perform_all].
  - intros H. inversion H; subst. exact Hs.
  - destruct (run (perform c) s) as [[[[] s1] log]| |] eqn:Hrun; try discriminate.
    apply IH. eapply reach_call; eassumption.
Qed.

Lemma sender_initial_reachable : reachable sender_initial.
Proof. apply (reach_init sender_initial []). exact A_init_static. Qed.

(** Six messages fill the window. *)
Lemma sender_full_reachable : reachable sender_full.
Proof.
  apply (perform_all_reachable (repeat (call_A_output msg_a) 6) sender_initial).
  - exact sender_initial_reachable.
  - vm_compute. reflexivity.
Qed.

Lemma sender_one_reachable : reachable sender_one.
Proof.
  apply (reach_call sender_initial (call_A_output msg_a) sender_one
           [tolayer3 A pkt_a0; starttimer A RTT]).
  - apply (reach_init sender_initial []). exact A_init_static.
  - exact A_output_first.
Qed.

Lemma windowcount_bounded_witness :
  reachable sender_one /\ 0 <= windowcount sender_one <= WINDOWSIZE.
Proof.
  split; [exact sender_one_reachable|].
  apply (windowcount_bounded sender_one). exact sender_one_reachable.
Defined.

(** ** A new acknowledgment *)

(** C3. An uncorrupted acknowledgment whose sequence number is not yet
    marked makes [A_input] mark that sequence number and nothing else in
    the flags. If the number is that of the packet at the window head,
    the window slides ([slides]: the head index advances and the count
    goes down once for every slot passed, each passed while the count was
    positive and the slot's sequence number marked, up to the first slot
    where that fails), then the timer is stopped, and started again
    exactly when the count is still positive. Otherwise head and count
    stay and the timer is not touched. *)
Theorem A_input_new_ack (packet : pkt) (s : sender) :
  sender_wf s ->
  IsCorrupted packet = false ->
  aref (acked s) (acknum packet) = Some false ->
  exists head s' log,
    aref (buffer s) (windowfirst s) = Some head
    /\ run (A_input packet) s = Ok (tt, s', log)
    /\ acked s' = <[Z.to_nat (acknum packet) := true]> (acked s)
    /\ aref (acked s') (acknum packet) = Some true
    /\ buffer s' = buffer s
    /\ windowlast s' = windowlast s
    /\ A_nextseqnum s' = A_nextseqnum s
    /\ if acknum packet =? seqnum head then
         (exists k, slides k (marked packet s) s')
         /\ log = stoptimer A
                  :: (if windowcount s' >? 0 then [starttimer A RTT] else [])
       else
         windowfirst s' = windowfirst s
         /\ windowcount s' = windowcount s
         /\ log = [].
Proof.
  intros W Hc Ha.
  destruct (A_input_fresh packet s W Hc Ha) as (head & Hh & Hcase).
  pose proof (marked_flag packet s (aref_Some _ _ _ Ha)) as Hm.
  exists head. destruct (acknum packet =? seqnum head).
  - destruct Hcase as (k & s' & Hsl & _ & Hrun).
    exists s'. eexists. split; [exact Hh|]. split; [exact Hrun|].
    pose proof Hsl as [_ _ _ _ Hb Hl Hq Hk _ _ _].
    rewrite Hk, Hb, Hl, Hq. repeat split; try exact Hm.
    exists k. exact Hsl.
  - exists (marked packet s), []. repeat split; assumption.
Qed.

Lemma A_input_new_ack_witness :
  sender_wf sender_one
  /\ IsCorrupted ack_0 = false
  /\ aref (acked sender_one) (acknum ack_0) = Some false
  /\ exists head s' log,
       aref (buffer sender_one) (windowfirst sender_one) = Some head
       /\ run (A_input ack_0) sender_one = Ok (tt, s', log)
       /\ acked s' = <[Z.to_nat (acknum ack_0) := true]> (acked sender_one)
       /\ aref (acked s') (acknum ack_0) = Some true
       /\ buffer s' = buffer sender_one
       /\ windowlast s' = windowlast sender_one
       /\ A_nextseqnum s' = A_nextseqnum sender_one
       /\ if acknum ack_0 =? seqnum head then
            (exists k, slides k (marked ack_0 sender_one) s')
            /\ log = stoptimer A
                     :: (if windowcount s' >? 0 then [starttimer A RTT] else [])
          else
            windowfirst s' = windowfirst sender_one
            /\ windowcount s' = windowcount sender_one
            /\ log = [].
Proof.
  assert (W : sender_wf sender_one) by (apply reachable_wf, sender_one_reachable).
  split; [exact W|]. split; [reflexivity|]. split; [reflexivity|].
  apply (A_input_new_ack ack_0 sender_one); [exact W | reflexivity | reflexivity].
Defined.

(** ** A repeated acknowledgment *)

Lemma slide_cond_state (s s1 : sender) log log1 c :
  slide_cond s log = Ok (c, s1, log1) -> s1 = s /\ log1 = log.
Proof.
  unfold slide_cond. exec. destruct (windowcount s >? 0).
  - destruct (aref (buffer s) (windowfirst s)) as [head|]; [|discriminate].
    destruct (aref (acked s) (seqnum head)); [|discriminate].
    intros H. inversion H. split; reflexivity.
  - intros H. inversion H. split; reflexivity.
Qed.

(** The sliding loop writes no flag and calls nothing. *)
Lemma slide_loop_acked (n : nat) (s s' : sender) log log' :
  while n slide_cond slide_body s log = Ok (tt, s', log') ->
  acked s' = acked s /\ log' = log.
Proof.
  revert s log. induction n as [|n IH]; intros s log; [discriminate|].
  cbn [while]. unfold bind at 1.
  destruct (slide_cond s log) as [[[c s1] log1]| |] eqn:Hcond; try discriminate.
  apply slide_cond_state in Hcond as [-> ->].
  destruct c.
  - unfold bind at 1, slide_body. exec. intros H. apply IH in H as [H1 H2].
    split; [rewrite H1; reflexivity | exact H2].
  - intros H. inversion H. split; reflexivity.
Qed.

(** Once [A_input] has returned on an uncorrupted packet, the flag of
    its [acknum] is set. *)
Lemma A_input_marks (packet : pkt) (s s' : sender) log :
  IsCorrupted packet = false ->
  run (A_input packet) s = Ok (tt, s', log) ->
  aref (acked s') (acknum packet) = Some true.
Proof.
  intros Hc Hrun.
  destruct (aref (acked s) (acknum packet)) as [[|]|] eqn:Ha.
  - rewrite A_input_duplicate in Hrun by assumption.
    inversion Hrun; subst. exact Ha.
  - pose proof (aref_Some _ _ _ Ha) as Hr.
    revert Hrun. unfold A_input. rewrite Hc. cbn [negb].
    exec. rewrite Ha. exec. cbn [negb acked set_new_ACKs].
    rewrite (aset_in_range (acked s)) by exact Hr. exec.
    fold (marked packet s).
    destruct (aref (buffer (marked packet s)) (windowfirst (marked packet s)))
      as [head|]; [|discriminate]. exec.
    destruct (acknum packet =? seqnum head).
    + destruct (while _ slide_cond slide_body (marked packet s) [])
        as [[[[] s1] log1]| |] eqn:Hloop; try discriminate.
      apply slide_loop_acked in Hloop as [Hk _].
      destruct (windowcount s1 >? 0); intros H; inversion H; subst;
        rewrite Hk; apply marked_flag, Hr.
    + intros H. inversion H; subst. apply marked_flag, Hr.
  - rewrite A_input_out_of_bounds in Hrun by assumption. discriminate.
Qed.

(** C5. When [A_input] has processed an acknowledgment, processing the
    same packet again returns the sender's state as it is, every
    variable of it, and calls nothing: twice is once. (The second call
    finds a corrupted packet corrupted again, and an uncorrupted one
    already marked.) *)
Theorem A_input_idempotent (packet : pkt) (s s' : sender) log :
  run (A_input packet) s = Ok (tt, s', log) ->
  run (A_input packet) s' = Ok (tt, s', []).
Proof.
  intros Hrun. destruct (IsCorrupted packet) eqn:Hc.
  - apply A_input_corrupted, Hc.
  - apply A_input_duplicate; [exact Hc|].
    eapply A_input_marks; eassumption.
Qed.

Lemma A_input_ack_0_run :
  run (A_input ack_0) sender_one = Ok (tt, sender_acked, [stoptimer A]).
Proof. vm_compute. reflexivity. Qed.

Lemma A_input_idempotent_witness :
  run (A_input ack_0) sender_one = Ok (tt, sender_acked, [stoptimer A])
  /\ run (A_input ack_0) sender_acked = Ok (tt, sender_acked, []).
Proof.
  split; [exact A_input_ack_0_run|].
  apply (A_input_idempotent ack_0 sender_one sender_acked [stoptimer A]).
  exact A_input_ack_0_run.
Defined.

(** ** The delivery loop of the receiver *)

Lemma flags_set_clear (l : list bool) (i : nat) :
  l !! i = Some true -> S (flags_set (<[i := false]> l)) = flags_set l.
Proof.
  revert i. induction l as [|b l IH]; intros [|i] H; simpl in *; try discriminate.
  - inversion H. reflexivity.
  - rewrite <- (IH i H). destruct b; lia.
Qed.

Lemma flags_set_length (l : list bool) : (flags_set l <= length l)%nat.
Proof. induction l as [|[|] l IH]; simpl; lia. Qed.

Lemma deliver_cond_run (r : receiver) log :
  receiver_wf r ->
  exists c,
    deliver_cond r log = Ok (c, r, log)
    /\ aref (received r) (expectedseqnum r) = Some c.
Proof.
  intros [Hp Hf He]. unfold deliver_cond. exec.
  destruct (aref_in_range (received r) (expectedseqnum r)) as [c Hc].
  { rewrite Hf. unfold SEQSPACE in *. lia. }
  exists c. rewrite Hc. split; reflexivity.
Qed.

Lemma deliver_body_run (r : receiver) log :
  receiver_wf r -> aref (received r) (expectedseqnum r) = Some true ->
  exists r' data,
    deliver_body r log = Ok (tt, r', log ++ [tolayer5 B data])
    /\ receiver_wf r'
    /\ S (flags_set (received r')) = flags_set (received r).
Proof.
  intros [Hp Hf He] Hc. unfold deliver_body. exec.
  destruct (aref_in_range (recvpkt r) (expectedseqnum r)) as [slot Hs].
  { rewrite Hp. unfold SEQSPACE in *. lia. }
  rewrite Hs. exec.
  rewrite aset_in_range by (rewrite Hf; unfold SEQSPACE in *; lia). exec.
  cbn [expectedseqnum set_received].
  eexists. exists (payload slot). split; [reflexivity|]. split.
  - split; cbn; try assumption.
    + rewrite length_insert. exact Hf.
    + unfold SEQSPACE in *. rewrite next_index by lia.
      apply Z.mod_pos_bound. lia.
  - cbn. apply flags_set_clear. unfold aref in Hc.
    destruct (0 <=? expectedseqnum r); [exact Hc|discriminate].
Qed.

(** The loop returns, having only delivered payloads, at a cursor whose
    flag is clear. *)
Lemma deliver_loop (n : nat) (r : receiver) log :
  receiver_wf r -> (flags_set (received r) < n)%nat ->
  exists r' ds,
    while n deliver_cond deliver_body r log = Ok (tt, r', log ++ ds)
    /\ Forall is_delivery ds
    /\ receiver_wf r'
    /\ aref (received r') (expectedseqnum r') = Some false.
Proof.
  revert r log. induction n as [|n IH]; intros r log W Hn; [lia|].
  cbn [while]. unfold bind at 1.
  destruct (deliver_cond_run r log W) as (c & -> & Hc).
  destruct c.
  - unfold bind at 1.
    destruct (deliver_body_run r log W Hc) as (r1 & data & -> & W1 & Hm).
    destruct (IH r1 (log ++ [tolayer5 B data]) W1 ltac:(lia))
      as (r' & ds & Hrun & Hds & W' & Hstop).
    exists r', (tolayer5 B data :: ds).
    split; [|split; [|split; assumption]].
    + rewrite Hrun. rewrite <- app_assoc. reflexivity.
    + constructor; [exact I | exact Hds].
  - exists r, []. rewrite app_nil_r.
    split; [reflexivity|]. split; [constructor|]. split; assumption.
Qed.

(** Whenever the loop returns, it has only delivered payloads. *)
Lemma deliver_loop_log (n : nat) (r r' : receiver) log log' :
  while n deliver_cond deliver_body r log = Ok (tt, r', log') ->
  exists ds, log' = log ++ ds /\ Forall is_delivery ds.
Proof.
  revert r log. induction n as [|n IH]; intros r log; [discriminate|].
  cbn [while]. unfold bind at 1, deliver_cond. exec.
  destruct (aref (received r) (expectedseqnum r)) as [[|]|]; try discriminate.
  - unfold deliver_body. exec.
    destruct (aref (recvpkt r) (expectedseqnum r)) as [slot|]; [|discriminate].
    exec. destruct (aset (received r) (expectedseqnum r) false) as [a|];
      [|discriminate].
    exec. intros H. apply IH in H as (ds & -> & Hds).
    exists (tolayer5 B (payload slot) :: ds).
    rewrite <- app_assoc. split; [reflexivity|].
    constructor; [exact I | exact Hds].
  - intros H. inversion H. exists []. rewrite app_nil_r.
    split; [reflexivity | constructor].
Qed.

(** ** The receiver's reply *)

Lemma ack_pkt_fields (sendpkt : pkt) :
  seqnum (ack_pkt sendpkt) = seqnum sendpkt
  /\ acknum (ack_pkt sendpkt) = NOTINUSE
  /\ payload (ack_pkt sendpkt) = repeat 48 PAYLOAD
  /\ checksum (ack_pkt sendpkt) = ComputeChecksum (ack_pkt sendpkt).
Proof.
  split; [reflexivity|]. split; [reflexivity|]. split; [reflexivity|].
  unfold ack_pkt, set_checksum. cbn [checksum]. unfold ComputeChecksum.
  reflexivity.
Qed.

Lemma ack_pkt_uncorrupted (sendpkt : pkt) : IsCorrupted (ack_pkt sendpkt) = false.
Proof. apply IsCorrupted_false. apply ack_pkt_fields. Qed.

(** Whenever [B_input] returns on an uncorrupted packet, it has
    delivered payloads and then sent one packet, [ack_pkt]. *)
Lemma B_input_log (sendpkt packet : pkt) (r r' : receiver) log :
  IsCorrupted packet = false ->
  run (B_input sendpkt packet) r = Ok (tt, r', log) ->
  exists ds, log = ds ++ [tolayer3 B (ack_pkt sendpkt)] /\ Forall is_delivery ds.
Proof.
  intros Hc. unfold B_input. rewrite Hc. cbn [negb]. exec.
  cbn [received set_packets_received].
  destruct (aref (received r) (seqnum packet)) as [seen|]; [|discriminate].
  exec.
  destruct seen; cbn [negb]; exec.
  - destruct (while _ deliver_cond deliver_body _ [])
      as [[[[] r1] log1]| |] eqn:Hloop; try discriminate.
    apply deliver_loop_log in Hloop as (ds & -> & Hds).
    intros H. inversion H; subst. exists ds. split; [reflexivity | exact Hds].
  - cbn [received set_packets_received].
    destruct (aset (received r) (seqnum packet) true) as [a|]; [|discriminate].
    exec. cbn [recvpkt set_received set_packets_received].
    destruct (aref (recvpkt r) (seqnum packet)) as [slot|]; [|discriminate].
    exec. cbn [recvpkt set_received set_packets_received].
    destruct (aset (recvpkt r) (seqnum packet) _) as [b|]; [|discriminate].
    exec.
    destruct (while _ deliver_cond deliver_body _ [])
      as [[[[] r1] log1]| |] eqn:Hloop; try discriminate.
    apply deliver_loop_log in Hloop as (ds & -> & Hds).
    intros H. inversion H; subst. exists ds. split; [reflexivity | exact Hds].
Qed.

(** On an uncorrupted packet with a sequence number of the sequence
    space, [B_input] returns. *)
Lemma B_input_replies (sendpkt packet : pkt) (r : receiver) :
  receiver_wf r ->
  IsCorrupted packet = false ->
  0 <= seqnum packet < SEQSPACE ->
  exists r' ds,
    run (B_input sendpkt packet) r
    = Ok (tt, r', ds ++ [tolayer3 B (ack_pkt sendpkt)])
    /\ Forall is_delivery ds /\ receiver_wf r'.
Proof.
  intros W Hc Hseq. pose proof W as [Hp Hf He].
  unfold B_input. rewrite Hc. cbn [negb]. exec.
  cbn [received set_packets_received].
  destruct (aref_in_range (received r) (seqnum packet)) as [seen Hseen].
  { rewrite Hf. unfold SEQSPACE in *. lia. }
  rewrite Hseen. exec.
  destruct seen; cbn [negb]; exec.
  - match goal with |- context [while ?n _ _ ?r0 []] =>
      destruct (deliver_loop n r0 []) as (r' & ds & Hrun & Hds & W' & _)
    end.
    { split; assumption. }
    { unfold deliver_fuel. cbn. pose proof (flags_set_length (received r)). lia. }
    rewrite Hrun. exists r', ds. split; [reflexivity|]. split; assumption.
  - cbn [received set_packets_received].
    rewrite aset_in_range by (rewrite Hf; unfold SEQSPACE in *; lia).
    exec. cbn [recvpkt set_received set_packets_received].
    destruct (aref_in_range (recvpkt r) (seqnum packet)) as [slot Hslot].
    { rewrite Hp. unfold SEQSPACE in *. lia. }
    rewrite Hslot. exec. cbn [recvpkt set_received set_packets_received].
    rewrite aset_in_range by (rewrite Hp; unfold SEQSPACE in *; lia).
    exec.
    match goal with |- context [while ?n _ _ ?r0 []] =>
      destruct (deliver_loop n r0 []) as (r' & ds & Hrun & Hds & W' & _)
    end.
    { split; cbn; try assumption; rewrite length_insert; assumption. }
    { unfold deliver_fuel. cbn.
      match goal with |- (flags_set ?l < _)%nat =>
        pose proof (flags_set_length l) end. lia. }
    rewrite Hrun. exists r', ds. split; [reflexivity|]. split; assumption.
Qed.

Lemma B_input_first_run :
  run (B_input zero_pkt pkt_a0) receiver_initial
  = Ok (tt, receiver_one,
        [tolayer5 B (payload pkt_a0); tolayer3 B (ack_pkt zero_pkt)]).
Proof. vm_compute. reflexivity. Qed.

(** C1, on the first packet of a run. [B_input] receives the uncorrupted
    packet with sequence number 0, delivers its payload and replies; the
    reply carries its own checksum and a payload of twenty characters
    ['0'], but its acknowledgment field is [NOTINUSE], not the sequence
    number received: the assignment of [packet.seqnum] is overwritten by
    the one that follows it. *)
Theorem B_input_reply_unaddressed :
  IsCorrupted pkt_a0 = false
  /\ run (B_input zero_pkt pkt_a0) receiver_initial
     = Ok (tt, receiver_one,
           [tolayer5 B (payload pkt_a0); tolayer3 B (ack_pkt zero_pkt)])
  /\ acknum (ack_pkt zero_pkt) = NOTINUSE
  /\ acknum (ack_pkt zero_pkt) <> seqnum pkt_a0
  /\ payload (ack_pkt zero_pkt) = repeat 48 PAYLOAD
  /\ checksum (ack_pkt zero_pkt) = ComputeChecksum (ack_pkt zero_pkt).
Proof.
  split; [reflexivity|]. split; [vm_compute; reflexivity|].
  split; [reflexivity|]. split; [discriminate|].
  split; reflexivity.
Qed.

(** ** Bounds of the read of [acked] *)

(** On an uncorrupted packet, in a state of the right shape, [A_input]
    returns exactly when [acknum] is an index of [acked]. *)
Lemma A_input_in_bounds_iff (packet : pkt) (s : sender) :
  sender_wf s -> IsCorrupted packet = false ->
  (exists s' log, run (A_input packet) s = Ok (tt, s', log))
  <-> 0 <= acknum packet < SEQSPACE.
Proof.
  intros W Hc. split.
  - intros (s' & log & Hrun).
    destruct (aref (acked s) (acknum packet)) as [a|] eqn:Ha.
    + apply aref_Some in Ha. rewrite (wf_acked s W) in Ha.
      unfold SEQSPACE in *. lia.
    + rewrite A_input_out_of_bounds in Hrun by assumption. discriminate.
  - intros Hr. destruct (wf_flag s (acknum packet) W Hr) as [[|] Ha].
    + exists s, []. apply A_input_duplicate; assumption.
    + destruct (A_input_fresh packet s W Hc Ha) as (head & _ & Hcase).
      destruct (acknum packet =? seqnum head).
      * destruct Hcase as (k & s' & _ & _ & Hrun). eauto.
      * eauto.
Qed.

(** C2, on the packets the receiver sends. Every packet that [B_input]
    passes to layer 3 is uncorrupted and has [acknum = NOTINUSE], and
    [A_input], given it in any state, reads [acked] at index -1, which
    is out of bounds. *)
Theorem A_input_out_of_bounds_on_reply
    (sendpkt packet ack : pkt) (r r' : receiver) log (s : sender) :
  run (B_input sendpkt packet) r = Ok (tt, r', log) ->
  In (tolayer3 B ack) log ->
  IsCorrupted ack = false
  /\ acknum ack = NOTINUSE
  /\ run (A_input ack) s = OutOfBounds.
Proof.
  intros Hrun Hin.
  assert (ack = ack_pkt sendpkt) as ->.
  { destruct (IsCorrupted packet) eqn:Hc.
    - unfold run, B_input in Hrun. rewrite Hc in Hrun.
      inversion Hrun; subst. destruct Hin.
    - destruct (B_input_log _ _ _ _ _ Hc Hrun) as (ds & -> & Hds).
      apply in_app_or in Hin as [Hin|[Hin|[]]].
      + rewrite Forall_forall in Hds.
        apply list_elem_of_In, Hds in Hin. destruct Hin.
      + congruence. }
  split; [apply ack_pkt_uncorrupted|]. split; [reflexivity|].
  apply A_input_out_of_bounds; [apply ack_pkt_uncorrupted|].
  apply aref_negative. reflexivity.
Qed.

Lemma A_input_out_of_bounds_on_reply_witness :
  IsCorrupted (ack_pkt zero_pkt) = false
  /\ acknum (ack_pkt zero_pkt) = NOTINUSE
  /\ run (A_input (ack_pkt zero_pkt)) sender_one = OutOfBounds.
Proof.
  apply (A_input_out_of_bounds_on_reply zero_pkt pkt_a0 (ack_pkt zero_pkt)
           receiver_initial receiver_one _ sender_one B_input_first_run).
  right. left. reflexivity.
Defined.

(** * Further properties of the routines *)

(** ** Stamping a packet with its checksum *)

Lemma ComputeChecksum_set_checksum (c : Z) (p : pkt) :
  ComputeChecksum (set_checksum c p) = ComputeChecksum p.
Proof.
  unfold ComputeChecksum, set_checksum. cbn [seqnum acknum payload].
  reflexivity.
Qed.

Lemma stamped_uncorrupted (p : pkt) :
  IsCorrupted (set_checksum (ComputeChecksum p) p) = false.
Proof.
  apply IsCorrupted_false. rewrite ComputeChecksum_set_checksum. reflexivity.
Qed.

(** X1. The checksum of a packet does not depend on its checksum field
    and is an [int]; a packet in which it is stored passes
    [IsCorrupted], whatever its fields. *)
Theorem checksum_stamp (p : pkt) :
  Int.in_range (ComputeChecksum p)
  /\ (forall c, ComputeChecksum (set_checksum c p) = ComputeChecksum p)
  /\ IsCorrupted (set_checksum (ComputeChecksum p) p) = false.
Proof.
  split; [rewrite ComputeChecksum_sum; apply wrap_in_range|].
  split; [intros c; apply ComputeChecksum_set_checksum | apply stamped_uncorrupted].
Qed.

(** ** What the checksum does not see *)

Lemma sumZ_Permutation (l l' : list Z) : Permutation l l' -> sumZ l = sumZ l'.
Proof. induction 1; simpl; lia. Qed.

(** X2. The checksum is a sum: a packet whose payload is reordered, with
    the header and the checksum field kept, is corrupted exactly when
    the original is. *)
Theorem checksum_blind_to_reordering (p p' : pkt) :
  length (payload p) = PAYLOAD ->
  seqnum p' = seqnum p -> acknum p' = acknum p -> checksum p' = checksum p ->
  Permutation (payload p) (payload p') ->
  IsCorrupted p' = IsCorrupted p.
Proof.
  intros Hlen Hs Ha Hc Hperm. unfold IsCorrupted.
  rewrite !ComputeChecksum_sum, Hs, Ha, Hc.
  rewrite (fill_char_at (payload p)) by exact Hlen.
  rewrite (fill_char_at (payload p'))
    by (rewrite <- (Permutation_length Hperm); exact Hlen).
  rewrite (sumZ_Permutation _ _ Hperm). reflexivity.
Qed.

Lemma checksum_blind_to_reordering_witness :
  IsCorrupted (Pkt 0 (-1) 1940 (98 :: 97 :: repeat 97 18)) = false
  /\ IsCorrupted (Pkt 0 (-1) 1940 (97 :: 98 :: repeat 97 18)) = false.
Proof.
  split; [reflexivity|].
  rewrite (checksum_blind_to_reordering
             (Pkt 0 (-1) 1940 (98 :: 97 :: repeat 97 18))
             (Pkt 0 (-1) 1940 (97 :: 98 :: repeat 97 18)));
    [reflexivity | reflexivity | reflexivity | reflexivity | reflexivity |].
  apply perm_swap.
Defined.

(** X3. Nor does it tell the two header fields apart: with sequence and
    acknowledgment number exchanged a packet is corrupted exactly when
    the original is. *)
Theorem checksum_blind_to_header_swap (p : pkt) :
  IsCorrupted (Pkt (acknum p) (seqnum p) (checksum p) (payload p))
  = IsCorrupted p.
Proof.
  unfold IsCorrupted. rewrite !ComputeChecksum_sum. cbn [seqnum acknum checksum payload].
  replace (acknum p + seqnum p) with (seqnum p + acknum p) by lia. reflexivity.
Qed.

(** ** [A_output] when the window has room *)

Lemma data_pkt_fields (seq : Z) (message : msg) :
  seqnum (data_pkt seq message) = seq
  /\ acknum (data_pkt seq message) = NOTINUSE
  /\ payload (data_pkt seq message) = fill (char_at (data message))
  /\ IsCorrupted (data_pkt seq message) = false.
Proof.
  split; [reflexivity|]. split; [reflexivity|]. split; [reflexivity|].
  apply stamped_uncorrupted.
Qed.

(** X4. With fewer than [WINDOWSIZE] packets outstanding, [A_output]
    sends one packet: it has the next sequence number, [NOTINUSE] as its
    acknowledgment number, the message as its payload and its own
    checksum. The packet is stored in the slot after [windowlast], the
    other slots stay, the count goes up by one and the next sequence
    number advances modulo [SEQSPACE]. The timer is started exactly when
    nothing was outstanding before. *)
Theorem A_output_sends (message : msg) (s : sender) :
  sender_wf s ->
  length (data message) = PAYLOAD ->
  windowcount s < WINDOWSIZE ->
  exists s' p,
    run (A_output message) s
    = Ok (tt, s',
          tolayer3 A p
          :: (if windowcount s =? 0 then [starttimer A RTT] else []))
    /\ seqnum p = A_nextseqnum s
    /\ acknum p = NOTINUSE
    /\ payload p = data message
    /\ IsCorrupted p = false
    /\ windowlast s' = (windowlast s + 1) mod WINDOWSIZE
    /\ aref (buffer s') (windowlast s') = Some p
    /\ (forall i, i <> windowlast s' -> aref (buffer s') i = aref (buffer s) i)
    /\ windowfirst s' = windowfirst s
    /\ windowcount s' = windowcount s + 1
    /\ A_nextseqnum s' = (A_nextseqnum s + 1) mod SEQSPACE
    /\ acked s' = acked s.
Proof.
  intros W Hlen Hc. exists (accepted message s), (data_pkt (A_nextseqnum s) message).
  destruct (data_pkt_fields (A_nextseqnum s) message) as (Hs & Ha & Hp & Hk).
  pose proof (wf_windowlast s W) as Hl. pose proof (wf_buffer s W) as Hb.
  unfold WINDOWSIZE in *.
  pose proof (Z.mod_pos_bound (windowlast s + 1) 6 ltac:(lia)) as Hw.
  split.
  { rewrite A_output_accepts by assumption. cbn [accepted windowcount set_windowcount
      set_A_nextseqnum].
    destruct (Z.eqb_spec (windowcount s) 0) as [->|Hne]; [reflexivity|].
    destruct (Z.eqb_spec (windowcount s + 1) 1) as [?|_]; [lia|reflexivity]. }
  split; [exact Hs|]. split; [exact Ha|].
  split; [rewrite Hp; apply fill_char_at, Hlen|]. split; [exact Hk|].
  cbn. unfold WINDOWSIZE, SEQSPACE.
  split; [reflexivity|].
  split; [apply aref_insert_eq; rewrite Hb; lia|].
  split; [intros i Hi; apply aref_insert_ne; lia|].
  repeat split.
Qed.

Lemma A_output_sends_witness :
  sender_wf sender_initial
  /\ length (data msg_a) = PAYLOAD
  /\ windowcount sender_initial < WINDOWSIZE
  /\ exists s' p,
       run (A_output msg_a) sender_initial
       = Ok (tt, s',
             tolayer3 A p
             :: (if windowcount sender_initial =? 0
                 then [starttimer A RTT] else []))
       /\ seqnum p = A_nextseqnum sender_initial
       /\ acknum p = NOTINUSE
       /\ payload p = data msg_a
       /\ IsCorrupted p = false
       /\ windowlast s' = (windowlast sender_initial + 1) mod WINDOWSIZE
       /\ aref (buffer s') (windowlast s') = Some p
       /\ (forall i, i <> windowlast s' ->
             aref (buffer s') i = aref (buffer sender_initial) i)
       /\ windowfirst s' = windowfirst sender_initial
       /\ windowcount s' = windowcount sender_initial + 1
       /\ A_nextseqnum s' = (A_nextseqnum sender_initial + 1) mod SEQSPACE
       /\ acked s' = acked sender_initial.
Proof.
  split; [exact sender_initial_wf|]. split; [reflexivity|].
  split; [unfold WINDOWSIZE; simpl; lia|].
  apply (A_output_sends msg_a sender_initial);
    [exact sender_initial_wf | reflexivity | unfold WINDOWSIZE; simpl; lia].
Defined.

(** ** [A_init] *)

(** X5. Whatever the sender's variables hold, [A_init] returns with the
    next sequence number 0, an empty window ([windowfirst] 0,
    [windowlast] -1, count 0) and every flag of [acked] clear; it does
    not write the buffer and calls nothing. *)
Theorem A_init_resets (s : sender) :
  length (acked s) = Z.to_nat SEQSPACE ->
  exists s',
    run A_init s = Ok (tt, s', [])
    /\ A_nextseqnum s' = 0
    /\ windowfirst s' = 0
    /\ windowlast s' = -1
    /\ windowcount s' = 0
    /\ acked s' = repeat false (Z.to_nat SEQSPACE)
    /\ buffer s' = buffer s.
Proof.
  destruct s as [buf f l c n ack wfull nacks resent]. cbn [acked buffer].
  intros Hlen.
  do 12 (destruct ack as [|? ack]; [discriminate Hlen|]).
  destruct ack; [|discriminate Hlen].
  eexists. split; [vm_compute; reflexivity|]. repeat split.
Qed.

Lemma A_init_resets_witness :
  length (acked sender_acked) = Z.to_nat SEQSPACE
  /\ exists s',
       run A_init sender_acked = Ok (tt, s', [])
       /\ A_nextseqnum s' = 0
       /\ windowfirst s' = 0
       /\ windowlast s' = -1
       /\ windowcount s' = 0
       /\ acked s' = repeat false (Z.to_nat SEQSPACE)
       /\ buffer s' = buffer sender_acked.
Proof.
  split; [reflexivity|]. apply (A_init_resets sender_acked). reflexivity.
Defined.

(** ** The window holds the outstanding packets in order *)

Lemma same_window_inv (s s' : sender) :
  same_window s s' -> window_inv s -> window_inv s'.
Proof.
  intros (Hb & Hf & Hl & Hc & Hn) [Hring Hok]. split.
  - unfold ring in *. rewrite Hl, Hf, Hc. exact Hring.
  - intros j Hj. rewrite Hc in Hj. destruct (Hok j Hj) as (p & Hp & Hrest).
    exists p. unfold slot_after, window_seq in *. rewrite Hb, Hf, Hn, Hc.
    split; assumption.
Qed.

Lemma sender_initial_inv : window_inv sender_initial.
Proof.
  split; [reflexivity|]. intros j Hj. cbn in Hj. lia.
Qed.

Lemma accepted_inv (message : msg) (s : sender) :
  sender_wf s -> windowcount s < WINDOWSIZE ->
  window_inv s -> window_inv (accepted message s).
Proof.
  intros [Hb Ha Hf Hl Hn Hq Hs] Hc [Hring Hok].
  unfold ring, WINDOWSIZE, SEQSPACE in *.
  assert (Hlast : (windowlast s + 1) mod 6 = (windowfirst s + windowcount s) mod 6)
    by exact Hring.
  split.
  - unfold ring, accepted, WINDOWSIZE. cbn. mod_lia.
  - intros j Hj. unfold slot_after, window_seq, accepted, WINDOWSIZE, SEQSPACE in *.
    cbn in *.
    pose proof (Z.mod_pos_bound (windowlast s + 1) 6 ltac:(lia)) as Hw.
    destruct (Z.eq_dec j (windowcount s)) as [->|Hne].
    + exists (data_pkt (A_nextseqnum s) message).
      rewrite <- Hlast.
      split; [apply aref_insert_eq; rewrite Hb; lia|].
      destruct (data_pkt_fields (A_nextseqnum s) message) as (H1 & H2 & _ & H4).
      split; [rewrite H1; mod_lia|]. split; assumption.
    + destruct (Hok j ltac:(lia)) as (p & Hp & Hseq & Hrest).
      unfold slot_after, window_seq, WINDOWSIZE, SEQSPACE in Hp, Hseq.
      exists p. split.
      * rewrite aref_insert_ne; [exact Hp | lia | mod_lia].
      * split; [rewrite Hseq; mod_lia | exact Hrest].
Qed.

Lemma slides_inv (k : nat) (s s' : sender) :
  slides k s s' -> sender_wf s -> window_inv s -> window_inv s'.
Proof.
  intros Hsl W [Hring Hok].
  pose proof (slides_count k s s' Hsl ltac:(apply (wf_windowcount s W))) as Hcnt.
  destruct Hsl as [Hf Hc _ _ Hb Hl Hn _ _ _ _].
  pose proof (wf_windowfirst s W) as Hfr.
  unfold ring, WINDOWSIZE, SEQSPACE in *. split.
  - unfold ring, WINDOWSIZE. rewrite Hl, Hf, Hc. mod_lia.
  - intros j Hj. rewrite Hc in Hj.
    destruct (Hok (Z.of_nat k + j) ltac:(lia)) as (p & Hp & Hseq & Hrest).
    exists p. unfold slot_after, window_seq, WINDOWSIZE, SEQSPACE in *.
    rewrite Hb, Hf, Hn, Hc.
    replace (((windowfirst s + Z.of_nat k) mod 6 + j) mod 6)
      with ((windowfirst s + (Z.of_nat k + j)) mod 6) by mod_lia.
    split; [exact Hp|]. split; [rewrite Hseq; f_equal; lia | exact Hrest].
Qed.

Lemma A_timerinterrupt_run (s : sender) (head : pkt) :
  aref (buffer s) (windowfirst s) = Some head ->
  run A_timerinterrupt s
  = Ok (tt, set_packets_resent (Int.add (packets_resent s) 1) s,
        tolayer3 A head
        :: (if windowcount s >? 0 then [starttimer A RTT] else [])).
Proof.
  intros H. unfold A_timerinterrupt. exec. rewrite H. exec.
  cbn [app windowcount set_packets_resent].
  destruct (windowcount s >? 0); reflexivity.
Qed.

Lemma perform_inv (c : call) (s s' : sender) log :
  sender_wf s -> window_inv s ->
  run (perform c) s = Ok (tt, s', log) -> window_inv s'.
Proof.
  intros W Hinv. destruct c as [message|packet|]; cbn [perform]; intros Hrun.
  - destruct (Z.lt_ge_cases (windowcount s) WINDOWSIZE) as [Hc|Hc].
    + rewrite A_output_accepts in Hrun by assumption.
      inversion Hrun; subst. apply accepted_inv; assumption.
    + rewrite A_output_refuses in Hrun by assumption.
      inversion Hrun; subst. apply (same_window_inv s); [|exact Hinv].
      repeat split.
  - destruct (IsCorrupted packet) eqn:Hc.
    { rewrite A_input_corrupted in Hrun by exact Hc. congruence. }
    destruct (aref (acked s) (acknum packet)) as [[|]|] eqn:Ha.
    + rewrite A_input_duplicate in Hrun by assumption. congruence.
    + assert (Hm : window_inv (marked packet s)).
      { apply (same_window_inv s); [|exact Hinv]. repeat split. }
      destruct (A_input_fresh packet s W Hc Ha) as (head & _ & Hcase).
      destruct (acknum packet =? seqnum head).
      * destruct Hcase as (k & s1 & Hsl & _ & Hrun1).
        rewrite Hrun1 in Hrun. inversion Hrun; subst.
        apply (slides_inv k (marked packet s)); [exact Hsl | | exact Hm].
        apply marked_wf, W.
      * rewrite Hcase in Hrun. inversion Hrun; subst. exact Hm.
    + rewrite A_input_out_of_bounds in Hrun by assumption. discriminate.
  - destruct (wf_head s W) as (head & Hh & _).
    rewrite (A_timerinterrupt_run s head Hh) in Hrun. inversion Hrun; subst.
    apply (same_window_inv s); [|exact Hinv]. repeat split.
Qed.

Lemma reachable_inv (s : sender) : reachable s -> window_inv s.
Proof.
  induction 1 as [s log Hinit | s c s' log Hs IH Hrun].
  - rewrite A_init_static in Hinit. inversion Hinit; subst.
    apply sender_initial_inv.
  - eapply perform_inv; [apply reachable_wf, Hs | exact IH | exact Hrun].
Qed.

(** X6. In every state the sender reaches, the window is a ring: the
    slot after [windowlast], where the next packet goes, is the one
    [windowcount] slots after [windowfirst]. *)
Theorem window_is_ring (s : sender) :
  reachable s ->
  (windowlast s + 1) mod WINDOWSIZE
  = (windowfirst s + windowcount s) mod WINDOWSIZE.
Proof. intros H. apply (reachable_inv s H). Qed.

Lemma window_is_ring_witness :
  reachable sender_full
  /\ (windowlast sender_full + 1) mod WINDOWSIZE
     = (windowfirst sender_full + windowcount sender_full) mod WINDOWSIZE.
Proof.
  split; [exact sender_full_reachable|].
  apply (window_is_ring sender_full). exact sender_full_reachable.
Defined.

(** X7. In every state the sender reaches, the outstanding packets sit
    in the buffer from [windowfirst] on in the order of sending: the
    [j]-th of them carries the sequence number
    [A_nextseqnum - windowcount + j] modulo [SEQSPACE], [NOTINUSE] as
    acknowledgment number, and its own checksum. *)
Theorem window_in_order (s : sender) (j : Z) :
  reachable s ->
  0 <= j < windowcount s ->
  exists p,
    aref (buffer s) ((windowfirst s + j) mod WINDOWSIZE) = Some p
    /\ seqnum p = (A_nextseqnum s - windowcount s + j) mod SEQSPACE
    /\ acknum p = NOTINUSE
    /\ IsCorrupted p = false.
Proof. intros H Hj. destruct (reachable_inv s H) as [_ Hok]. exact (Hok j Hj). Qed.

Lemma window_in_order_witness :
  reachable sender_full
  /\ 0 <= 4 < windowcount sender_full
  /\ exists p,
       aref (buffer sender_full) ((windowfirst sender_full + 4) mod WINDOWSIZE)
       = Some p
       /\ seqnum p
          = (A_nextseqnum sender_full - windowcount sender_full + 4) mod SEQSPACE
       /\ acknum p = NOTINUSE
       /\ IsCorrupted p = false.
Proof.
  assert (Hj : 0 <= 4 < windowcount sender_full) by (simpl; lia).
  split; [exact sender_full_reachable|]. split; [exact Hj|].
  apply (window_in_order sender_full 4 sender_full_reachable Hj).
Defined.

(** X8. When the timer goes off in a reachable state with packets
    outstanding, what [A_timerinterrupt] passes to layer 3 is the oldest
    of them: an uncorrupted packet with sequence number
    [A_nextseqnum - windowcount] modulo [SEQSPACE]; the timer is started
    again and the window is as before. *)
Theorem A_timerinterrupt_resends_oldest (s : sender) :
  reachable s ->
  0 < windowcount s ->
  exists s' head,
    run A_timerinterrupt s
    = Ok (tt, s', [tolayer3 A head; starttimer A RTT])
    /\ seqnum head = (A_nextseqnum s - windowcount s) mod SEQSPACE
    /\ acknum head = NOTINUSE
    /\ IsCorrupted head = false
    /\ same_window s s'.
Proof.
  intros H Hc. destruct (reachable_inv s H) as [_ Hok].
  destruct (Hok 0 ltac:(lia)) as (head & Hh & Hseq & Hack & Hcor).
  pose proof (reachable_wf s H) as W.
  unfold slot_after in Hh. unfold window_seq in Hseq.
  rewrite Z.add_0_r in Hh, Hseq.
  rewrite Z.mod_small in Hh by apply (wf_windowfirst s W).
  exists (set_packets_resent (Int.add (packets_resent s) 1) s), head.
  split.
  { rewrite (A_timerinterrupt_run s head Hh).
    destruct (Z.gtb_spec (windowcount s) 0) as [_|?]; [reflexivity|lia]. }
  repeat split; assumption.
Qed.

Lemma A_timerinterrupt_resends_oldest_witness :
  reachable sender_full
  /\ 0 < windowcount sender_full
  /\ exists s' head,
       run A_timerinterrupt sender_full
       = Ok (tt, s', [tolayer3 A head; starttimer A RTT])
       /\ seqnum head
          = (A_nextseqnum sender_full - windowcount sender_full) mod SEQSPACE
       /\ acknum head = NOTINUSE
       /\ IsCorrupted head = false
       /\ same_window sender_full s'.
Proof.
  assert (Hc : 0 < windowcount sender_full) by (simpl; lia).
  split; [exact sender_full_reachable|]. split; [exact Hc|].
  apply (A_timerinterrupt_resends_oldest sender_full sender_full_reachable Hc).
Defined.

(** ** Which calls of the sender return *)

(** X9. In a state of the right shape, as every reachable state is, a
    call of [A_output] or [A_timerinterrupt] always returns, and a call
    of [A_input] returns exactly when the packet is corrupted or its
    [acknum] is an index of [acked]: no other array access of the
    sender can leave its array. The state it returns has the right
    shape again. *)
Theorem sender_call_returns_iff (c : call) (s : sender) :
  sender_wf s ->
  (exists s' log, run (perform c) s = Ok (tt, s', log) /\ sender_wf s')
  <-> match c with
      | call_A_input packet =>
          IsCorrupted packet = true \/ 0 <= acknum packet < SEQSPACE
      | _ => True
      end.
Proof.
  intros W. destruct c as [message|packet|]; cbn [perform].
  - split; [trivial|]. intros _.
    destruct (Z.lt_ge_cases (windowcount s) WINDOWSIZE) as [Hc|Hc].
    + eexists. eexists. split; [apply A_output_accepts; assumption|].
      apply accepted_wf; assumption.
    + eexists. eexists. split; [apply A_output_refuses; assumption|].
      destruct W. split; assumption.
  - destruct (IsCorrupted packet) eqn:Hc.
    + split; [intros _; left; reflexivity|]. intros _.
      exists s, []. split; [apply A_input_corrupted, Hc | exact W].
    + split.
      * intros (s' & log & Hrun & _). right.
        apply (A_input_in_bounds_iff packet s W Hc). eauto.
      * intros [?|Hr]; [discriminate|].
        apply (A_input_in_bounds_iff packet s W Hc) in Hr as (s' & log & Hrun).
        exists s', log. split; [exact Hrun|]. eapply A_input_wf; eassumption.
  - split; [trivial|]. intros _.
    destruct (wf_head s W) as (head & Hh & _).
    eexists. eexists. split; [apply (A_timerinterrupt_run s head Hh)|].
    destruct W. split; assumption.
Qed.

Lemma sender_call_returns_iff_witness :
  sender_wf sender_one
  /\ ((exists s' log,
         run (perform (call_A_input ack_0)) sender_one = Ok (tt, s', log)
         /\ sender_wf s')
      <-> IsCorrupted ack_0 = true \/ 0 <= acknum ack_0 < SEQSPACE).
Proof.
  assert (W : sender_wf sender_one) by (apply reachable_wf, sender_one_reachable).
  split; [exact W|].
  apply (sender_call_returns_iff (call_A_input ack_0) sender_one W).
Defined.

(** ** What [A_input] leaves alone *)

(** The three ways in which [A_input] returns. *)
Lemma A_input_cases (packet : pkt) (s s' : sender) log :
  sender_wf s ->
  run (A_input packet) s = Ok (tt, s', log) ->
  (s' = s /\ log = [])
  \/ (aref (acked s) (acknum packet) = Some false
      /\ ((s' = marked packet s /\ log = [])
          \/ exists k,
               slides k (marked packet s) s'
               /\ log = stoptimer A
                        :: (if windowcount s' >? 0
                            then [starttimer A RTT] else []))).
Proof.
  intros W Hrun. destruct (IsCorrupted packet) eqn:Hc.
  { rewrite A_input_corrupted in Hrun by exact Hc. left.
    inversion Hrun. split; reflexivity. }
  destruct (aref (acked s) (acknum packet)) as [[|]|] eqn:Ha.
  - rewrite A_input_duplicate in Hrun by assumption. left.
    inversion Hrun. split; reflexivity.
  - right. split; [reflexivity|].
    destruct (A_input_fresh packet s W Hc Ha) as (head & _ & Hcase).
    destruct (acknum packet =? seqnum head).
    + destruct Hcase as (k & s1 & Hsl & _ & Hrun1).
      rewrite Hrun1 in Hrun. inversion Hrun; subst. right. exists k.
      split; [exact Hsl | reflexivity].
    + rewrite Hcase in Hrun. inversion Hrun; subst. left. split; reflexivity.
  - rewrite A_input_out_of_bounds in Hrun by assumption. discriminate.
Qed.

(** X10. [A_input] takes packets out of the window and does nothing
    else to it: whenever it returns, the buffer, [windowlast] and the
    next sequence number are as before, the count has not grown and is
    not negative, and the only calls made are calls of A's timer; no
    packet is sent. *)
Theorem A_input_frame (packet : pkt) (s s' : sender) log :
  sender_wf s ->
  run (A_input packet) s = Ok (tt, s', log) ->
  buffer s' = buffer s
  /\ windowlast s' = windowlast s
  /\ A_nextseqnum s' = A_nextseqnum s
  /\ 0 <= windowcount s' <= windowcount s
  /\ Forall timer_call log.
Proof.
  intros W Hrun. pose proof (wf_windowcount s W) as Hc.
  destruct (A_input_cases packet s s' log W Hrun)
    as [[-> ->]|[_ [[-> ->]|(k & Hsl & ->)]]].
  - repeat split; try lia. constructor.
  - repeat split; try (cbn; lia). constructor.
  - pose proof (slides_count k _ _ Hsl ltac:(cbn; lia)) as Hk.
    destruct Hsl as [_ _ _ _ Hb Hl Hn _ _ _ _].
    rewrite Hb, Hl, Hn. cbn in Hk |- *. repeat split; try lia.
    constructor; [exact I|].
    destruct (windowcount s' >? 0); repeat constructor.
Qed.

Lemma A_input_frame_witness :
  sender_wf sender_one
  /\ run (A_input ack_0) sender_one = Ok (tt, sender_acked, [stoptimer A])
  /\ buffer sender_acked = buffer sender_one
  /\ windowlast sender_acked = windowlast sender_one
  /\ A_nextseqnum sender_acked = A_nextseqnum sender_one
  /\ 0 <= windowcount sender_acked <= windowcount sender_one
  /\ Forall timer_call [stoptimer A].
Proof.
  assert (W : sender_wf sender_one) by (apply reachable_wf, sender_one_reachable).
  split; [exact W|]. split; [exact A_input_ack_0_run|].
  apply (A_input_frame ack_0 sender_one sender_acked [stoptimer A] W).
  exact A_input_ack_0_run.
Defined.

(** X11. No routine of the sender clears a flag of [acked] after
    [A_init]: a sequence number that is marked stays marked through
    every call, also when the number is given to a new packet. *)
Theorem acked_never_cleared (c : call) (s s' : sender) log (i : Z) :
  sender_wf s ->
  run (perform c) s = Ok (tt, s', log) ->
  aref (acked s) i = Some true ->
  aref (acked s') i = Some true.
Proof.
  intros W Hrun Hi.
  assert (Hm : forall packet, aref (acked s) (acknum packet) = Some false ->
                 aref (acked (marked packet s)) i = Some true).
  { intros packet Ha. cbn. pose proof (aref_Some _ _ _ Ha) as Hr.
    rewrite aref_insert_ne; [exact Hi | lia | congruence]. }
  destruct c as [message|packet|]; cbn [perform] in Hrun.
  - destruct (Z.lt_ge_cases (windowcount s) WINDOWSIZE) as [Hc|Hc].
    + rewrite A_output_accepts in Hrun by assumption.
      inversion Hrun; subst. exact Hi.
    + rewrite A_output_refuses in Hrun by assumption.
      inversion Hrun; subst. exact Hi.
  - destruct (A_input_cases packet s s' log W Hrun)
      as [[-> _]|[Ha [[-> _]|(k & Hsl & _)]]].
    + exact Hi.
    + apply Hm, Ha.
    + rewrite (sl_acked _ _ _ Hsl). apply Hm, Ha.
  - destruct (wf_head s W) as (head & Hh & _).
    rewrite (A_timerinterrupt_run s head Hh) in Hrun.
    inversion Hrun; subst. exact Hi.
Qed.

Lemma acked_never_cleared_witness :
  sender_wf sender_acked
  /\ run (perform (call_A_output msg_a)) sender_acked
     = Ok (tt, accepted msg_a sender_acked,
           [tolayer3 A (data_pkt 1 msg_a); starttimer A RTT])
  /\ aref (acked sender_acked) 0 = Some true
  /\ aref (acked (accepted msg_a sender_acked)) 0 = Some true.
Proof.
  assert (W : sender_wf sender_acked).
  { apply reachable_wf.
    apply (reach_call sender_one (call_A_input ack_0) sender_acked [stoptimer A]);
      [exact sender_one_reachable | exact A_input_ack_0_run]. }
  assert (Hrun : run (perform (call_A_output msg_a)) sender_acked
                 = Ok (tt, accepted msg_a sender_acked,
                       [tolayer3 A (data_pkt 1 msg_a); starttimer A RTT]))
    by (vm_compute; reflexivity).
  split; [exact W|]. split; [exact Hrun|]. split; [reflexivity|].
  apply (acked_never_cleared (call_A_output msg_a) sender_acked
           (accepted msg_a sender_acked) _ 0 W Hrun).
  reflexivity.
Defined.

(** ** One turn of the delivery loop *)

Lemma deliver_stop (n : nat) (r : receiver) log :
  aref (received r) (expectedseqnum r) = Some false ->
  while (S n) deliver_cond deliver_body r log = Ok (tt, r, log).
Proof.
  intros H. cbn [while]. unfold deliver_cond. exec. rewrite H. reflexivity.
Qed.

Lemma deliver_step (n : nat) (r : receiver) log :
  receiver_wf r ->
  aref (received r) (expectedseqnum r) = Some true ->
  while (S n) deliver_cond deliver_body r log
  = while n deliver_cond deliver_body (delivered r)
      (log ++ [tolayer5 B (stored r (expectedseqnum r))]).
Proof.
  intros [Hp Hf He] H. cbn [while]. unfold deliver_cond, deliver_body. exec.
  rewrite H. exec. unfold stored.
  destruct (aref_in_range (recvpkt r) (expectedseqnum r)) as [slot ->].
  { rewrite Hp. unfold SEQSPACE in *. lia. }
  exec. rewrite aset_in_range by (rewrite Hf; unfold SEQSPACE in *; lia).
  exec. cbn [expectedseqnum set_received]. unfold delivered.
  unfold SEQSPACE in *. rewrite next_index by lia. reflexivity.
Qed.

Lemma delivered_wf (r : receiver) : receiver_wf r -> receiver_wf (delivered r).
Proof.
  intros [Hp Hf He]. split; cbn; try assumption.
  - rewrite length_insert. exact Hf.
  - apply Z.mod_pos_bound. unfold SEQSPACE. lia.
Qed.

Lemma delivered_flags (r : receiver) :
  receiver_wf r ->
  aref (received r) (expectedseqnum r) = Some true ->
  S (flags_set (received (delivered r))) = flags_set (received r).
Proof.
  intros [_ _ He] H. cbn. apply flags_set_clear.
  unfold aref in H. destruct (0 <=? expectedseqnum r); [exact H|discriminate].
Qed.

(** ** The delivery loop as a whole *)

Lemma cursor_after_0 (r : receiver) :
  receiver_wf r -> cursor_after r 0 = expectedseqnum r.
Proof.
  intros [_ _ He]. unfold cursor_after. rewrite Z.add_0_r.
  apply Z.mod_small. exact He.
Qed.

Lemma cursor_after_delivered (r : receiver) (j : nat) :
  cursor_after (delivered r) j = cursor_after r (S j).
Proof.
  unfold cursor_after, delivered, SEQSPACE. cbn [expectedseqnum set_expectedseqnum].
  mod_lia.
Qed.

Lemma cursor_after_range (r : receiver) (j : nat) :
  0 <= cursor_after r j < SEQSPACE.
Proof. unfold cursor_after. apply Z.mod_pos_bound. unfold SEQSPACE. lia. Qed.

(** Places less than a full turn apart are different. *)
Lemma cursor_after_apart (r : receiver) (j : nat) :
  receiver_wf r -> (j < 11)%nat -> cursor_after r (S j) <> expectedseqnum r.
Proof.
  intros [_ _ He] Hj. unfold cursor_after, SEQSPACE in *. mod_lia.
Qed.

Lemma delivers_zero (r : receiver) :
  receiver_wf r ->
  aref (received r) (expectedseqnum r) = Some false ->
  delivers 0 r r [].
Proof.
  intros W H. split; try reflexivity.
  - symmetry. apply cursor_after_0, W.
  - intros j Hj. lia.
  - right. rewrite cursor_after_0 by exact W. exact H.
  - lia.
  - intros j Hj. lia.
Qed.

Lemma delivers_succ (k : nat) (r r' : receiver) ds :
  receiver_wf r ->
  aref (received r) (expectedseqnum r) = Some true ->
  delivers k (delivered r) r' ds ->
  delivers (S k) r r' (tolayer5 B (stored r (expectedseqnum r)) :: ds).
Proof.
  intros W H [Hcur Hev Hfl Hst Hcnt Hcl Hk Hrp Hbn Hpr].
  pose proof (delivered_flags r W H) as Hdf.
  pose proof (flags_set_length (received r)) as Hlen.
  rewrite (wf_received r W) in Hlen. change (Z.to_nat SEQSPACE) with 12%nat in *.
  assert (Hk11 : (k <= 11)%nat) by lia.
  pose proof (aref_Some _ _ _ H) as Hr.
  assert (Hins : forall i, i <> expectedseqnum r ->
            aref (received (delivered r)) i = aref (received r) i).
  { intros i Hi. cbn. apply aref_insert_ne; [lia | congruence]. }
  assert (Hhere : aref (received (delivered r)) (expectedseqnum r) = Some false).
  { cbn. apply aref_insert_eq. exact Hr. }
  split.
  - rewrite Hcur. apply cursor_after_delivered.
  - cbn [seq map]. rewrite cursor_after_0 by exact W. f_equal.
    rewrite Hev, <- seq_shift, map_map. apply map_ext. intros j.
    rewrite cursor_after_delivered. reflexivity.
  - intros [|j] Hj.
    + rewrite cursor_after_0 by exact W. exact H.
    + specialize (Hfl j ltac:(lia)). rewrite cursor_after_delivered in Hfl.
      rewrite Hins in Hfl; [exact Hfl|].
      intros Heq. rewrite Heq in Hfl. congruence.
  - destruct Hst as [->|Hst]; [lia|].
    rewrite cursor_after_delivered in Hst.
    destruct (Z.eq_dec (cursor_after r (S k)) (expectedseqnum r)) as [Heq|Hne].
    + left. destruct (Nat.eq_dec k 11%nat) as [->|Hk']; [reflexivity|].
      exfalso. apply (cursor_after_apart r k W ltac:(lia)). exact Heq.
    + right. rewrite Hins in Hst by exact Hne. exact Hst.
  - lia.
  - intros [|j] Hj.
    + rewrite cursor_after_0 by exact W. rewrite Hk; [exact Hhere|].
      intros j Hj'. rewrite cursor_after_delivered. intros Heq.
      apply (cursor_after_apart r j W ltac:(lia)). symmetry. exact Heq.
    + rewrite <- cursor_after_delivered. apply Hcl. lia.
  - intros i Hi. rewrite Hk.
    + apply Hins. rewrite <- (cursor_after_0 r W). apply Hi. lia.
    + intros j Hj. rewrite cursor_after_delivered. apply Hi. lia.
  - exact Hrp.
  - exact Hbn.
  - exact Hpr.
Qed.

(** The loop returns with the run of flagged places at the cursor
    delivered. *)
Lemma deliver_run (n : nat) (r : receiver) log :
  receiver_wf r -> (flags_set (received r) < n)%nat ->
  exists k r' ds,
    while n deliver_cond deliver_body r log = Ok (tt, r', log ++ ds)
    /\ delivers k r r' ds /\ receiver_wf r'.
Proof.
  revert r log. induction n as [|n IH]; intros r log W Hn; [lia|].
  destruct (deliver_cond_run r log W) as ([|] & _ & Hc).
  - rewrite deliver_step by assumption.
    pose proof (delivered_flags r W Hc) as Hdf.
    destruct (IH (delivered r) (log ++ [tolayer5 B (stored r (expectedseqnum r))])
                (delivered_wf r W) ltac:(lia)) as (k & r' & ds & Hrun & Hdl & W').
    exists (S k), r', (tolayer5 B (stored r (expectedseqnum r)) :: ds).
    split; [rewrite Hrun, <- app_assoc; reflexivity|].
    split; [apply delivers_succ; assumption | exact W'].
  - rewrite deliver_stop by exact Hc.
    exists 0%nat, r, []. rewrite app_nil_r. split; [reflexivity|].
    split; [apply delivers_zero; assumption | exact W].
Qed.

(** ** [B_input] up to its delivery loop *)

Lemma B_input_arrived (sendpkt packet : pkt) (r : receiver) :
  receiver_wf r ->
  IsCorrupted packet = false ->
  0 <= seqnum packet < SEQSPACE ->
  run (B_input sendpkt packet) r
  = match while (deliver_fuel (arrived packet r)) deliver_cond deliver_body
            (arrived packet r) [] with
    | Ok (_, r', log) => Ok (tt, r', log ++ [tolayer3 B (ack_pkt sendpkt)])
    | OutOfBounds => OutOfBounds
    | OutOfFuel => OutOfFuel
    end.
Proof.
  intros [Hp Hf He] Hc Hseq. unfold B_input. rewrite Hc. cbn [negb]. exec.
  cbn [received set_packets_received]. unfold arrived, cached.
  destruct (aref_in_range (received r) (seqnum packet)) as [seen Hseen].
  { rewrite Hf. unfold SEQSPACE in *. lia. }
  destruct (aref_in_range (recvpkt r) (seqnum packet)) as [slot Hslot].
  { rewrite Hp. unfold SEQSPACE in *. lia. }
  rewrite Hseen. exec. destruct seen; cbn [negb]; exec.
  - fold (counted r).
    destruct (while _ deliver_cond deliver_body (counted r) [])
      as [[[[] r1] log1]| |]; reflexivity.
  - cbn [received set_packets_received].
    rewrite aset_in_range by (rewrite Hf; unfold SEQSPACE in *; lia).
    exec. cbn [recvpkt set_received set_packets_received].
    rewrite Hslot. exec. cbn [recvpkt set_received set_packets_received].
    rewrite aset_in_range by (rewrite Hp; unfold SEQSPACE in *; lia).
    exec. fold (counted r).
    match goal with |- context [while _ _ _ ?r0 []] =>
      destruct (while (deliver_fuel r0) deliver_cond deliver_body r0 [])
        as [[[[] r1] log1]| |]; reflexivity
    end.
Qed.

Section Arrived.
Variables (packet : pkt) (r : receiver).
Hypothesis W : receiver_wf r.
Hypothesis Hseq : 0 <= seqnum packet < SEQSPACE.

Lemma arrived_cases :
  (aref (received r) (seqnum packet) = Some true /\ arrived packet r = counted r)
  \/ (aref (received r) (seqnum packet) = Some false
      /\ exists slot,
           aref (recvpkt r) (seqnum packet) = Some slot
           /\ arrived packet r
              = set_recvpkt
                  (<[Z.to_nat (seqnum packet) :=
                       set_payload (fill (fun i => char_at (payload packet) i)) slot]>
                     (recvpkt r))
                  (set_received
                     (<[Z.to_nat (seqnum packet) := true]> (received r))
                     (counted r))).
Proof.
  destruct W as [Hp Hf He]. unfold arrived, cached.
  destruct (aref_in_range (received r) (seqnum packet)) as [seen Hseen].
  { rewrite Hf. unfold SEQSPACE in *. lia. }
  destruct (aref_in_range (recvpkt r) (seqnum packet)) as [slot Hslot].
  { rewrite Hp. unfold SEQSPACE in *. lia. }
  rewrite Hseen, Hslot. destruct seen.
  - left. split; reflexivity.
  - right. split; [reflexivity|]. exists slot. split; reflexivity.
Qed.

Lemma arrived_wf : receiver_wf (arrived packet r).
Proof.
  destruct W as [Hp Hf He].
  destruct arrived_cases as [[_ ->]|[_ (slot & _ & ->)]]; split; cbn;
    rewrite ?length_insert; assumption.
Qed.

Lemma arrived_cursor : expectedseqnum (arrived packet r) = expectedseqnum r.
Proof. destruct arrived_cases as [[_ ->]|[_ (slot & _ & ->)]]; reflexivity. Qed.

Lemma arrived_packets_received :
  packets_received (arrived packet r) = Int.add (packets_received r) 1.
Proof. destruct arrived_cases as [[_ ->]|[_ (slot & _ & ->)]]; reflexivity. Qed.

Lemma arrived_flag : aref (received (arrived packet r)) (seqnum packet) = Some true.
Proof.
  destruct arrived_cases as [[H ->]|[H (slot & _ & ->)]]; cbn; [exact H|].
  apply aref_insert_eq. apply (aref_Some _ _ _ H).
Qed.

Lemma arrived_flag_other (i : Z) :
  i <> seqnum packet ->
  aref (received (arrived packet r)) i = aref (received r) i.
Proof.
  intros Hi. destruct arrived_cases as [[H ->]|[H (slot & _ & ->)]]; cbn;
    [reflexivity|].
  apply aref_insert_ne; [lia | congruence].
Qed.

Lemma arrived_stored_new :
  length (payload packet) = PAYLOAD ->
  aref (received r) (seqnum packet) = Some false ->
  stored (arrived packet r) (seqnum packet) = payload packet.
Proof.
  intros Hlen Hfalse.
  destruct arrived_cases as [[H _]|[_ (slot & Hslot & ->)]]; [congruence|].
  unfold stored. cbn [recvpkt set_recvpkt].
  rewrite aref_insert_eq by apply (aref_Some _ _ _ Hslot).
  cbn. apply fill_char_at, Hlen.
Qed.

Lemma arrived_stored_seen :
  aref (received r) (seqnum packet) = Some true ->
  stored (arrived packet r) (seqnum packet) = stored r (seqnum packet).
Proof.
  intros Htrue.
  destruct arrived_cases as [[_ ->]|[H _]]; [reflexivity | congruence].
Qed.

Lemma arrived_stored_other (i : Z) :
  i <> seqnum packet ->
  stored (arrived packet r) i = stored r i.
Proof.
  intros Hi. destruct arrived_cases as [[H ->]|[H (slot & _ & ->)]];
    [reflexivity|].
  unfold stored. cbn [recvpkt set_recvpkt set_received counted set_packets_received].
  rewrite aref_insert_ne; [reflexivity | lia | congruence].
Qed.

End Arrived.

(** ** What [B_input] delivers *)

Lemma B_input_none (sendpkt packet : pkt) (r : receiver) :
  receiver_wf r ->
  IsCorrupted packet = false ->
  0 <= seqnum packet < SEQSPACE ->
  aref (received (arrived packet r)) (expectedseqnum r) = Some false ->
  run (B_input sendpkt packet) r
  = Ok (tt, arrived packet r, [tolayer3 B (ack_pkt sendpkt)]).
Proof.
  intros W Hc Hseq Hflag. rewrite B_input_arrived by assumption.
  unfold deliver_fuel. rewrite deliver_stop; [reflexivity|].
  rewrite arrived_cursor by assumption. exact Hflag.
Qed.

Lemma B_input_one (sendpkt packet : pkt) (r : receiver) :
  receiver_wf r ->
  IsCorrupted packet = false ->
  0 <= seqnum packet < SEQSPACE ->
  aref (received (arrived packet r)) (expectedseqnum r) = Some true ->
  aref (received (delivered (arrived packet r)))
       ((expectedseqnum r + 1) mod SEQSPACE) = Some false ->
  run (B_input sendpkt packet) r
  = Ok (tt, delivered (arrived packet r),
        [tolayer5 B (stored (arrived packet r) (expectedseqnum r));
         tolayer3 B (ack_pkt sendpkt)]).
Proof.
  intros W Hc Hseq Hflag Hnext. rewrite B_input_arrived by assumption.
  pose proof (arrived_wf packet r W Hseq) as W1.
  pose proof (arrived_cursor packet r W Hseq) as Hcur.
  unfold deliver_fuel. rewrite deliver_step; [|exact W1|rewrite Hcur; exact Hflag].
  rewrite (wf_received _ W1). change (Z.to_nat SEQSPACE) with 12%nat.
  rewrite deliver_stop; [rewrite Hcur; reflexivity|].
  cbn [delivered expectedseqnum set_expectedseqnum]. rewrite Hcur. exact Hnext.
Qed.

(** X12. On an uncorrupted packet with a sequence number of the
    sequence space, [B_input] returns: it counts the packet, stores it
    unless the flag of its number is set ([arrived]), hands up the run
    of flagged payloads that starts at the cursor ([delivers]) and then
    sends one reply. Afterwards the flag at the cursor is clear. *)
Theorem B_input_delivers_run (sendpkt packet : pkt) (r : receiver) :
  receiver_wf r ->
  IsCorrupted packet = false ->
  0 <= seqnum packet < SEQSPACE ->
  exists k r' ds,
    run (B_input sendpkt packet) r
    = Ok (tt, r', ds ++ [tolayer3 B (ack_pkt sendpkt)])
    /\ delivers k (arrived packet r) r' ds
    /\ receiver_wf r'
    /\ aref (received r') (expectedseqnum r') = Some false.
Proof.
  intros W Hc Hseq. pose proof (arrived_wf packet r W Hseq) as W1.
  assert (Hfuel : (flags_set (received (arrived packet r))
                   < deliver_fuel (arrived packet r))%nat).
  { unfold deliver_fuel.
    pose proof (flags_set_length (received (arrived packet r))). lia. }
  destruct (deliver_run _ _ [] W1 Hfuel) as (k & r' & ds & Hrun & Hdl & W').
  destruct (deliver_loop _ _ [] W1 Hfuel) as (r2 & ds2 & Hrun2 & _ & _ & Hstop).
  rewrite Hrun in Hrun2. inversion Hrun2; subst r2.
  exists k, r', ds. rewrite B_input_arrived by assumption. rewrite Hrun.
  split; [reflexivity|]. split; [exact Hdl|]. split; assumption.
Qed.

Lemma B_input_delivers_run_witness :
  receiver_wf receiver_initial
  /\ IsCorrupted pkt_a0 = false
  /\ 0 <= seqnum pkt_a0 < SEQSPACE
  /\ exists k r' ds,
       run (B_input zero_pkt pkt_a0) receiver_initial
       = Ok (tt, r', ds ++ [tolayer3 B (ack_pkt zero_pkt)])
       /\ delivers k (arrived pkt_a0 receiver_initial) r' ds
       /\ receiver_wf r'
       /\ aref (received r') (expectedseqnum r') = Some false.
Proof.
  assert (W : receiver_wf receiver_initial)
    by (split; [reflexivity | reflexivity | unfold SEQSPACE; simpl; lia]).
  assert (Hseq : 0 <= seqnum pkt_a0 < SEQSPACE) by (unfold SEQSPACE; simpl; lia).
  split; [exact W|]. split; [reflexivity|]. split; [exact Hseq|].
  apply (B_input_delivers_run zero_pkt pkt_a0 receiver_initial W eq_refl Hseq).
Defined.

(** ** A packet that arrives in order *)

Lemma in_order_next_apart (r : receiver) :
  receiver_wf r -> (expectedseqnum r + 1) mod SEQSPACE <> expectedseqnum r.
Proof.
  intros W. pose proof (wf_expectedseqnum r W). unfold SEQSPACE in *. mod_lia.
Qed.

Section InOrder.
Variables (sendpkt packet : pkt) (r : receiver).
Hypothesis W : receiver_wf r.
Hypothesis Hc : IsCorrupted packet = false.
Hypothesis Hlen : length (payload packet) = PAYLOAD.
Hypothesis Hseq : seqnum packet = expectedseqnum r.
Hypothesis Hhere : aref (received r) (expectedseqnum r) = Some false.
Hypothesis Hnext :
  aref (received r) ((expectedseqnum r + 1) mod SEQSPACE) = Some false.

Lemma in_order_range : 0 <= seqnum packet < SEQSPACE.
Proof. rewrite Hseq. apply (wf_expectedseqnum r W). Qed.

Lemma in_order_after_flag :
  aref (received (delivered (arrived packet r)))
       ((expectedseqnum r + 1) mod SEQSPACE) = Some false.
Proof.
  pose proof in_order_range as Hr. pose proof (in_order_next_apart r W) as Hne.
  pose proof (wf_expectedseqnum r W) as He.
  cbn [delivered received set_received set_expectedseqnum].
  rewrite (arrived_cursor packet r W Hr).
  rewrite aref_insert_ne; [|lia|congruence].
  rewrite (arrived_flag_other packet r W Hr); [exact Hnext|].
  rewrite Hseq. exact Hne.
Qed.

Lemma in_order_run :
  run (B_input sendpkt packet) r
  = Ok (tt, delivered (arrived packet r),
        [tolayer5 B (payload packet); tolayer3 B (ack_pkt sendpkt)]).
Proof.
  pose proof in_order_range as Hr.
  rewrite (B_input_one sendpkt packet r W Hc Hr).
  - rewrite <- Hseq. rewrite (arrived_stored_new packet r W Hr Hlen); [reflexivity|].
    rewrite Hseq. exact Hhere.
  - rewrite <- Hseq. apply (arrived_flag packet r W Hr).
  - exact in_order_after_flag.
Qed.

Lemma in_order_flags : received (delivered (arrived packet r)) = received r.
Proof.
  pose proof in_order_range as Hr.
  cbn [delivered received set_received set_expectedseqnum].
  rewrite (arrived_cursor packet r W Hr).
  destruct (arrived_cases packet r W Hr) as [[H _]|[_ (slot & _ & ->)]].
  - rewrite Hseq in H. congruence.
  - cbn [received set_recvpkt set_received]. rewrite Hseq.
    rewrite list_insert_insert_eq. apply list_insert_id.
    unfold aref in Hhere. destruct (0 <=? expectedseqnum r); [exact Hhere|discriminate].
Qed.

End InOrder.

(** X13. An uncorrupted packet whose sequence number is the one
    expected, with no packet cached for the number after it, is handed
    up at once: [B_input] delivers its payload and nothing else, sends
    one reply, advances the cursor by one modulo [SEQSPACE] and leaves
    every flag as it was. *)
Theorem B_input_in_order (sendpkt packet : pkt) (r : receiver) :
  receiver_wf r ->
  IsCorrupted packet = false ->
  length (payload packet) = PAYLOAD ->
  seqnum packet = expectedseqnum r ->
  aref (received r) (expectedseqnum r) = Some false ->
  aref (received r) ((expectedseqnum r + 1) mod SEQSPACE) = Some false ->
  exists r',
    run (B_input sendpkt packet) r
    = Ok (tt, r', [tolayer5 B (payload packet); tolayer3 B (ack_pkt sendpkt)])
    /\ expectedseqnum r' = (expectedseqnum r + 1) mod SEQSPACE
    /\ received r' = received r
    /\ packets_received r' = Int.add (packets_received r) 1.
Proof.
  intros W Hc Hlen Hseq Hhere Hnext.
  pose proof (in_order_range packet r W Hseq) as Hr.
  exists (delivered (arrived packet r)).
  split; [apply in_order_run; assumption|].
  split; [cbn; rewrite (arrived_cursor packet r W Hr); reflexivity|].
  split; [apply in_order_flags; assumption|].
  cbn. apply (arrived_packets_received packet r W Hr).
Qed.

Lemma receiver_initial_wf : receiver_wf receiver_initial.
Proof. split; [reflexivity | reflexivity | unfold SEQSPACE; simpl; lia]. Qed.

Lemma B_input_in_order_witness :
  receiver_wf receiver_initial
  /\ IsCorrupted pkt_a0 = false
  /\ length (payload pkt_a0) = PAYLOAD
  /\ seqnum pkt_a0 = expectedseqnum receiver_initial
  /\ aref (received receiver_initial) (expectedseqnum receiver_initial)
     = Some false
  /\ aref (received receiver_initial)
          ((expectedseqnum receiver_initial + 1) mod SEQSPACE) = Some false
  /\ exists r',
       run (B_input zero_pkt pkt_a0) receiver_initial
       = Ok (tt, r', [tolayer5 B (payload pkt_a0); tolayer3 B (ack_pkt zero_pkt)])
       /\ expectedseqnum r' = (expectedseqnum receiver_initial + 1) mod SEQSPACE
       /\ received r' = received receiver_initial
       /\ packets_received r' = Int.add (packets_received receiver_initial) 1.
Proof.
  split; [exact receiver_initial_wf|]. do 5 (split; [reflexivity|]).
  apply (B_input_in_order zero_pkt pkt_a0 receiver_initial receiver_initial_wf);
    reflexivity.
Defined.

(** ** A packet that does not arrive in order *)

(** X14. While the packet expected has not come, an uncorrupted packet
    with another sequence number is kept, whatever that number is:
    [B_input] delivers nothing, sends one reply and leaves the cursor;
    afterwards the flag of the number is set, and what is stored for it
    is this payload, unless the flag was set before, in which case the
    payload stored earlier stays. Other flags and slots are as before. *)
Theorem B_input_out_of_order (sendpkt packet : pkt) (r : receiver) :
  receiver_wf r ->
  IsCorrupted packet = false ->
  length (payload packet) = PAYLOAD ->
  0 <= seqnum packet < SEQSPACE ->
  seqnum packet <> expectedseqnum r ->
  aref (received r) (expectedseqnum r) = Some false ->
  exists r',
    run (B_input sendpkt packet) r = Ok (tt, r', [tolayer3 B (ack_pkt sendpkt)])
    /\ expectedseqnum r' = expectedseqnum r
    /\ aref (received r') (seqnum packet) = Some true
    /\ stored r' (seqnum packet)
       = match aref (received r) (seqnum packet) with
         | Some true => stored r (seqnum packet)
         | _ => payload packet
         end
    /\ forall i, i <> seqnum packet ->
         aref (received r') i = aref (received r) i
         /\ stored r' i = stored r i.
Proof.
  intros W Hc Hlen Hseq Hne Hhere. exists (arrived packet r).
  split.
  { apply B_input_none; try assumption.
    rewrite arrived_flag_other by (assumption || congruence). exact Hhere. }
  split; [apply arrived_cursor; assumption|].
  split; [apply arrived_flag; assumption|].
  split.
  { destruct (arrived_cases packet r W Hseq) as [[H _]|[H _]]; rewrite H.
    - apply arrived_stored_seen; assumption.
    - apply arrived_stored_new; assumption. }
  intros i Hi. split.
  - apply arrived_flag_other; assumption.
  - apply arrived_stored_other; assumption.
Qed.

Lemma B_input_out_of_order_witness :
  receiver_wf receiver_initial
  /\ IsCorrupted (data_pkt 2 msg_a) = false
  /\ length (payload (data_pkt 2 msg_a)) = PAYLOAD
  /\ 0 <= seqnum (data_pkt 2 msg_a) < SEQSPACE
  /\ seqnum (data_pkt 2 msg_a) <> expectedseqnum receiver_initial
  /\ aref (received receiver_initial) (expectedseqnum receiver_initial)
     = Some false
  /\ exists r',
       run (B_input zero_pkt (data_pkt 2 msg_a)) receiver_initial
       = Ok (tt, r', [tolayer3 B (ack_pkt zero_pkt)])
       /\ expectedseqnum r' = expectedseqnum receiver_initial
       /\ aref (received r') (seqnum (data_pkt 2 msg_a)) = Some true
       /\ stored r' (seqnum (data_pkt 2 msg_a))
          = match aref (received receiver_initial) (seqnum (data_pkt 2 msg_a)) with
            | Some true => stored receiver_initial (seqnum (data_pkt 2 msg_a))
            | _ => payload (data_pkt 2 msg_a)
            end
       /\ forall i, i <> seqnum (data_pkt 2 msg_a) ->
            aref (received r') i = aref (received receiver_initial) i
            /\ stored r' i = stored receiver_initial i.
Proof.
  assert (Hr : 0 <= seqnum (data_pkt 2 msg_a) < SEQSPACE)
    by (unfold SEQSPACE; simpl; lia).
  assert (Hne : seqnum (data_pkt 2 msg_a) <> expectedseqnum receiver_initial)
    by (simpl; lia).
  split; [exact receiver_initial_wf|]. split; [reflexivity|].
  split; [reflexivity|]. split; [exact Hr|]. split; [exact Hne|].
  split; [reflexivity|].
  apply (B_input_out_of_order zero_pkt (data_pkt 2 msg_a) receiver_initial
           receiver_initial_wf eq_refl eq_refl Hr Hne eq_refl).
Defined.

(** X15. [B_input] keeps no record of what it has delivered. When a
    packet that was handed up in order arrives a second time, as it does
    after a retransmission, it is not delivered again at once but it is
    stored and flagged again: the receiver then holds, for a sequence
    number behind the cursor, a payload that the application already
    has. *)
Theorem B_input_stores_delivered_again (sendpkt packet : pkt) (r : receiver) :
  receiver_wf r ->
  IsCorrupted packet = false ->
  length (payload packet) = PAYLOAD ->
  seqnum packet = expectedseqnum r ->
  aref (received r) (expectedseqnum r) = Some false ->
  aref (received r) ((expectedseqnum r + 1) mod SEQSPACE) = Some false ->
  exists r1 r2,
    run (B_input sendpkt packet) r
    = Ok (tt, r1, [tolayer5 B (payload packet); tolayer3 B (ack_pkt sendpkt)])
    /\ run (B_input sendpkt packet) r1
       = Ok (tt, r2, [tolayer3 B (ack_pkt sendpkt)])
    /\ expectedseqnum r2 = (expectedseqnum r + 1) mod SEQSPACE
    /\ aref (received r2) (seqnum packet) = Some true
    /\ stored r2 (seqnum packet) = payload packet.
Proof.
  intros W Hc Hlen Hseq Hhere Hnext.
  pose proof (in_order_range packet r W Hseq) as Hr.
  pose proof (in_order_next_apart r W) as Hne.
  pose proof (delivered_wf _ (arrived_wf packet r W Hr)) as W1.
  set (r1 := delivered (arrived packet r)) in *.
  assert (Hcur1 : expectedseqnum r1 = (expectedseqnum r + 1) mod SEQSPACE).
  { unfold r1. cbn. rewrite (arrived_cursor packet r W Hr). reflexivity. }
  assert (Hflags1 : received r1 = received r) by (apply in_order_flags; assumption).
  exists r1, (arrived packet r1).
  split; [apply in_order_run; assumption|].
  split.
  { apply B_input_none; try assumption.
    rewrite arrived_flag_other; try assumption.
    - rewrite Hflags1, Hcur1. exact Hnext.
    - rewrite Hcur1, Hseq. exact Hne. }
  split; [rewrite arrived_cursor by assumption; exact Hcur1|].
  split; [apply arrived_flag; assumption|].
  apply arrived_stored_new; try assumption.
  rewrite Hflags1, Hseq. exact Hhere.
Qed.

Lemma B_input_stores_delivered_again_witness :
  exists r1 r2,
    run (B_input zero_pkt pkt_a0) receiver_initial
    = Ok (tt, r1, [tolayer5 B (payload pkt_a0); tolayer3 B (ack_pkt zero_pkt)])
    /\ run (B_input zero_pkt pkt_a0) r1
       = Ok (tt, r2, [tolayer3 B (ack_pkt zero_pkt)])
    /\ expectedseqnum r2 = (expectedseqnum receiver_initial + 1) mod SEQSPACE
    /\ aref (received r2) (seqnum pkt_a0) = Some true
    /\ stored r2 (seqnum pkt_a0) = payload pkt_a0.
Proof.
  apply (B_input_stores_delivered_again zero_pkt pkt_a0 receiver_initial
           receiver_initial_wf); reflexivity.
Defined.

(** ** Which calls of the receiver return *)

Lemma aref_out_of_range {X} (a : list X) (i : Z) :
  ~ 0 <= i < Z.of_nat (length a) -> aref a i = None.
Proof.
  intros H. unfold aref. destruct (Z.leb_spec 0 i) as [Hi|Hi]; [|reflexivity].
  apply lookup_ge_None_2. lia.
Qed.

Lemma B_input_out_of_range (sendpkt packet : pkt) (r : receiver) :
  receiver_wf r ->
  IsCorrupted packet = false ->
  ~ 0 <= seqnum packet < SEQSPACE ->
  run (B_input sendpkt packet) r = OutOfBounds.
Proof.
  intros W Hc Hseq. unfold B_input. rewrite Hc. cbn [negb]. exec.
  cbn [received set_packets_received].
  rewrite aref_out_of_range; [reflexivity|].
  rewrite (wf_received r W). unfold SEQSPACE in *. lia.
Qed.

Lemma B_input_run_facts (sendpkt packet : pkt) (r r' : receiver) log :
  receiver_wf r ->
  run (B_input sendpkt packet) r = Ok (tt, r', log) ->
  (IsCorrupted packet = true \/ 0 <= seqnum packet < SEQSPACE)
  /\ receiver_wf r'
  /\ (aref (received r) (expectedseqnum r) = Some false ->
      IsCorrupted packet = true ->
      aref (received r') (expectedseqnum r') = Some false)
  /\ (IsCorrupted packet = false ->
      aref (received r') (expectedseqnum r') = Some false).
Proof.
  intros W Hrun. destruct (IsCorrupted packet) eqn:Hc.
  - unfold run, B_input in Hrun. rewrite Hc in Hrun. inversion Hrun; subst.
    split; [left; reflexivity|]. split; [exact W|].
    split; [intros H _; exact H | discriminate].
  - destruct (Z_le_dec 0 (seqnum packet)) as [H0|H0];
      [destruct (Z_lt_dec (seqnum packet) SEQSPACE) as [H1|H1]|].
    + assert (Hseq : 0 <= seqnum packet < SEQSPACE) by lia.
      pose proof (arrived_wf packet r W Hseq) as W1.
      rewrite B_input_arrived in Hrun by assumption.
      destruct (deliver_loop (deliver_fuel (arrived packet r)) _ [] W1)
        as (r2 & ds & Hloop & _ & W2 & Hstop).
      { unfold deliver_fuel.
        pose proof (flags_set_length (received (arrived packet r))). lia. }
      rewrite Hloop in Hrun. inversion Hrun; subst.
      split; [right; exact Hseq|]. split; [exact W2|].
      split; [discriminate | intros _; exact Hstop].
    + rewrite B_input_out_of_range in Hrun by (assumption || lia). discriminate.
    + rewrite B_input_out_of_range in Hrun by (assumption || lia). discriminate.
Qed.

(** X16. In a receiver state of the right shape, [B_input] returns
    exactly when the packet is corrupted or its sequence number is an
    index of the receiver's arrays: an uncorrupted packet with any other
    [seqnum] makes it read [received] out of bounds. *)
Theorem B_input_returns_iff (sendpkt packet : pkt) (r : receiver) :
  receiver_wf r ->
  (exists r' log, run (B_input sendpkt packet) r = Ok (tt, r', log))
  <-> IsCorrupted packet = true \/ 0 <= seqnum packet < SEQSPACE.
Proof.
  intros W. split.
  - intros (r' & log & Hrun).
    apply (B_input_run_facts sendpkt packet r r' log W Hrun).
  - intros [Hc|Hseq].
    + exists r, []. unfold run, B_input. rewrite Hc. reflexivity.
    + destruct (IsCorrupted packet) eqn:Hc.
      * exists r, []. unfold run, B_input. rewrite Hc. reflexivity.
      * destruct (B_input_replies sendpkt packet r W Hc Hseq)
          as (r' & ds & Hrun & _). eauto.
Qed.

Lemma B_input_returns_iff_witness :
  receiver_wf receiver_initial
  /\ ((exists r' log,
         run (B_input zero_pkt pkt_a0) receiver_initial = Ok (tt, r', log))
      <-> IsCorrupted pkt_a0 = true \/ 0 <= seqnum pkt_a0 < SEQSPACE).
Proof.
  split; [exact receiver_initial_wf|].
  apply (B_input_returns_iff zero_pkt pkt_a0 receiver_initial
           receiver_initial_wf).
Defined.

(** ** Runs of the receiver *)

(** X17. In every state the receiver reaches from [B_init] by calls of
    [B_input], the arrays and the cursor have their shape and the flag
    at the cursor is clear: whatever is flagged waits behind a gap, and
    the packet expected is never held back. *)
Theorem receiver_cursor_clear (r : receiver) :
  receiver_reachable r ->
  receiver_wf r /\ aref (received r) (expectedseqnum r) = Some false.
Proof.
  induction 1 as [r log Hinit | r sendpkt packet r' log _ [W Hflag] Hrun].
  - rewrite B_init_run in Hinit. inversion Hinit; subst.
    split; [|reflexivity].
    split; [reflexivity | reflexivity | unfold SEQSPACE; simpl; lia].
  - destruct (B_input_run_facts sendpkt packet r r' log W Hrun)
      as (_ & W' & Hcor & Hunc).
    split; [exact W'|].
    destruct (IsCorrupted packet); [apply Hcor | apply Hunc]; auto.
Qed.

Lemma receiver_one_reachable : receiver_reachable receiver_one.
Proof.
  apply (rreach_input receiver_initial zero_pkt pkt_a0 receiver_one
           [tolayer5 B (payload pkt_a0); tolayer3 B (ack_pkt zero_pkt)]).
  - apply (rreach_init receiver_initial []). reflexivity.
  - exact B_input_first_run.
Qed.

Lemma receiver_cursor_clear_witness :
  receiver_reachable receiver_one
  /\ receiver_wf receiver_one
  /\ aref (received receiver_one) (expectedseqnum receiver_one) = Some false.
Proof.
  split; [exact receiver_one_reachable|].
  apply (receiver_cursor_clear receiver_one). exact receiver_one_reachable.
Defined.

(** ** From [A_output] to [B_input] *)

(** X18. What [A_output] sends, [B_input] takes. When sender and
    receiver are in step ([expectedseqnum = A_nextseqnum]) and the
    receiver holds nothing for the next number, the packet that
    [A_output] makes of a message makes [B_input] hand up exactly that
    message; afterwards the two are in step again. *)
Theorem A_output_then_B_input
    (message : msg) (s : sender) (sendpkt : pkt) (r : receiver) :
  sender_wf s ->
  windowcount s < WINDOWSIZE ->
  length (data message) = PAYLOAD ->
  receiver_wf r ->
  expectedseqnum r = A_nextseqnum s ->
  aref (received r) (expectedseqnum r) = Some false ->
  aref (received r) ((expectedseqnum r + 1) mod SEQSPACE) = Some false ->
  exists s' p timer r',
    run (A_output message) s = Ok (tt, s', tolayer3 A p :: timer)
    /\ run (B_input sendpkt p) r
       = Ok (tt, r', [tolayer5 B (data message); tolayer3 B (ack_pkt sendpkt)])
    /\ expectedseqnum r' = A_nextseqnum s'.
Proof.
  intros W Hc Hlen Wr Hstep Hhere Hnext.
  destruct (data_pkt_fields (A_nextseqnum s) message) as (Hs & _ & Hp & Hk).
  assert (Hpay : payload (data_pkt (A_nextseqnum s) message) = data message)
    by (rewrite Hp; apply fill_char_at, Hlen).
  assert (Hseq : seqnum (data_pkt (A_nextseqnum s) message) = expectedseqnum r)
    by congruence.
  assert (Hplen : length (payload (data_pkt (A_nextseqnum s) message)) = PAYLOAD)
    by congruence.
  pose proof (in_order_range _ r Wr Hseq) as Hr.
  eexists. exists (data_pkt (A_nextseqnum s) message). eexists. eexists.
  split; [apply A_output_accepts; assumption|].
  split.
  - rewrite <- Hpay. apply in_order_run; assumption.
  - cbn. rewrite (arrived_cursor _ r Wr Hr), Hstep. reflexivity.
Qed.

Lemma A_output_then_B_input_witness :
  exists s' p timer r',
    run (A_output msg_a) sender_initial = Ok (tt, s', tolayer3 A p :: timer)
    /\ run (B_input zero_pkt p) receiver_initial
       = Ok (tt, r', [tolayer5 B (data msg_a); tolayer3 B (ack_pkt zero_pkt)])
    /\ expectedseqnum r' = A_nextseqnum s'.
Proof.
  apply (A_output_then_B_input msg_a sender_initial zero_pkt receiver_initial
           sender_initial_wf);
    [unfold WINDOWSIZE; simpl; lia | reflexivity | exact receiver_initial_wf
    | reflexivity | reflexivity | reflexivity].
Defined.

(** ** A window that cannot slide *)

Lemma head_marked_step (c : call) (s s' : sender) log :
  sender_wf s -> ring s -> head_marked s ->
  run (perform c) s = Ok (tt, s', log) ->
  windowfirst s' = windowfirst s
  /\ windowcount s <= windowcount s'
  /\ head_marked s'.
Proof.
  intros W Hring [Hpos Hhead] Hrun.
  pose proof W as [Hb Ha Hf Hl Hn Hq Hs].
  destruct (wf_head s W) as (head & Hh & _).
  pose proof Hhead as Hflag. rewrite (slot_acked_head s W), Hh in Hflag.
  destruct c as [message|packet|]; cbn [perform] in Hrun.
  - destruct (Z.lt_ge_cases (windowcount s) WINDOWSIZE) as [Hc|Hc].
    + rewrite A_output_accepts in Hrun by assumption. inversion Hrun; subst.
      split; [reflexivity|]. split; [cbn; lia|]. split; [cbn; lia|].
      unfold slot_acked, slot_after, ring, WINDOWSIZE in *. cbn.
      unfold WINDOWSIZE.
      rewrite aref_insert_ne; [exact Hhead | mod_lia | mod_lia].
    + rewrite A_output_refuses in Hrun by assumption. inversion Hrun; subst.
      split; [reflexivity|]. split; [cbn; lia|]. split; [exact Hpos | exact Hhead].
  - destruct (IsCorrupted packet) eqn:Hc.
    { rewrite A_input_corrupted in Hrun by exact Hc. inversion Hrun; subst.
      split; [reflexivity|]. split; [lia|]. split; assumption. }
    destruct (aref (acked s) (acknum packet)) as [[|]|] eqn:Hack.
    + rewrite A_input_duplicate in Hrun by assumption. inversion Hrun; subst.
      split; [reflexivity|]. split; [lia|]. split; assumption.
    + destruct (A_input_fresh packet s W Hc Hack) as (head' & Hh' & Hcase).
      assert (head' = head) as -> by congruence.
      destruct (Z.eqb_spec (acknum packet) (seqnum head)) as [Heq|Hne].
      { rewrite Heq in Hack. congruence. }
      rewrite Hcase in Hrun. inversion Hrun; subst.
      split; [reflexivity|]. split; [cbn; lia|]. split; [exact Hpos|].
      rewrite (slot_acked_head _ (marked_wf packet s W)).
      change (buffer (marked packet s)) with (buffer s).
      change (windowfirst (marked packet s)) with (windowfirst s).
      rewrite Hh. cbn. pose proof (aref_Some _ _ _ Hack).
      rewrite aref_insert_ne; [exact Hflag | lia | exact Hne].
    + rewrite A_input_out_of_bounds in Hrun by assumption. discriminate.
  - rewrite (A_timerinterrupt_run s head Hh) in Hrun. inversion Hrun; subst.
    split; [reflexivity|]. split; [cbn; lia|]. split; assumption.
Qed.

(** X19. The flags of [acked] are never cleared, and [A_input] takes an
    acknowledgment whose flag is set for a duplicate. So once the packet
    at the window head has a sequence number that is marked, as the
    thirteenth packet of a run has, nothing moves the window any more:
    through every further sequence of calls [windowfirst] stays, the
    count does not go down and the head stays marked. *)
Theorem window_cannot_slide (cs : list call) (s s' : sender) :
  reachable s ->
  head_marked s ->
  perform_all cs s = Some s' ->
  windowfirst s' = windowfirst s
  /\ windowcount s <= windowcount s'
  /\ head_marked s'.
Proof.
  revert s. induction cs as [|c cs IH]; intros s Hreach Hhead; cbn [perform_all].
  - intros H. inversion H; subst. split; [reflexivity|]. split; [lia|exact Hhead].
  - destruct (run (perform c) s) as [[[[] s1] log]| |] eqn:Hrun; try discriminate.
    intros Hall.
    destruct (head_marked_step c s s1 log (reachable_wf s Hreach)
                (proj1 (reachable_inv s Hreach)) Hhead Hrun) as (H1 & H2 & H3).
    destruct (IH s1 (reach_call s c s1 log Hreach Hrun) H3 Hall) as (H4 & H5 & H6).
    split; [congruence|]. split; [lia | exact H6].
Qed.

Lemma sender_around_reachable : reachable sender_around.
Proof.
  apply (perform_all_reachable calls_around sender_initial).
  - exact sender_initial_reachable.
  - vm_compute. reflexivity.
Qed.

Lemma window_cannot_slide_witness :
  reachable sender_around
  /\ head_marked sender_around
  /\ perform_all [call_A_input (ack_for 0); call_A_timerinterrupt] sender_around
     = Some (set_packets_resent 1 sender_around)
  /\ windowfirst (set_packets_resent 1 sender_around) = windowfirst sender_around
  /\ windowcount sender_around <= windowcount (set_packets_resent 1 sender_around)
  /\ head_marked (set_packets_resent 1 sender_around).
Proof.
  assert (Hhead : head_marked sender_around) by (split; [simpl; lia | reflexivity]).
  assert (Hall : perform_all [call_A_input (ack_for 0); call_A_timerinterrupt]
                   sender_around
                 = Some (set_packets_resent 1 sender_around))
    by (vm_compute; reflexivity).
  split; [exact sender_around_reachable|]. split; [exact Hhead|].
  split; [exact Hall|].
  apply (window_cannot_slide [call_A_input (ack_for 0); call_A_timerinterrupt]
           sender_around (set_packets_resent 1 sender_around)
           sender_around_reachable Hhead Hall).
Defined.
